(** * Zenika/powerapi: actor runtime, start handshake, routing filter,
      HWPC grouped reports and the Mongo report source

    A shallow embedding of

      - [smartwatts/actor/actor.py]          (class [Actor])
      - [smartwatts/handler/start_handler.py] (class [StartHandler])
      - [powerapi/filter.py]                 (class [Filter])
      - [powerapi/rx/hwpc_reports_group.py]  (class [HWPCReportsGroup])
      - [powerapi/sources/mongosource.py]    (class [MongoSource])

    Python objects become records, methods become functions that take the
    receiver first, exceptions become the [Raise] branch of [Result], and
    everything a method does to the outside world (sockets, the observer,
    the process title) is appended to a chronological trace. *)

From Stdlib Require Import List String ZArith Bool Arith Lia.
Import ListNotations.
Open Scope string_scope.
Open Scope list_scope.

(** ** Exceptions and results *)

Inductive Exn : Type :=
| UnknowMessageTypeException
| RouterWithoutRuleException
| BadInputDataException
| RuntimeError
| AttributeError
| IndexError
| KeyError (key : string)
| OtherException (what : string).

Inductive Result (A : Type) : Type :=
| Ok (a : A)
| Raise (e : Exn).
Arguments Ok {A} a.
Arguments Raise {A} e.

Definition rbind {A B} (r : Result A) (k : A -> Result B) : Result B :=
  match r with
  | Ok a => k a
  | Raise e => Raise e
  end.

Declare Scope result_scope.
Delimit Scope result_scope with result.
Notation "'try!' x := c 'in' k" := (rbind c (fun x => k))
  (at level 10, x name, c at level 100, k at level 200) : result_scope.

(** ** Messages ([smartwatts.message])

    Only the classes of the messages matter to the runtime.  A message
    carries the method resolution order of its class, most derived class
    first, so that [isinstance] is membership of the class in that list,
    which is how Python answers it for ordinary classes. *)

Module Msg.

Definition class := string.

Record Message : Type := mkMessage {
  mro : list class;
  payload : string
}.

Definition isinstance (msg : Message) (cls : class) : bool :=
  existsb (String.eqb cls) (mro msg).

Definition StartMessage : Message :=
  mkMessage ["StartMessage"; "object"] "".
Definition OKMessage : Message :=
  mkMessage ["OKMessage"; "object"] "".
Definition ErrorMessage (error : string) : Message :=
  mkMessage ["ErrorMessage"; "object"] error.
Definition PoisonPillMessage : Message :=
  mkMessage ["PoisonPillMessage"; "object"] "".

(** [isinstance(msg, cls)] where [msg] may be [None]: [None] is an instance
    of no message class. *)
Definition isinstance_opt (msg : option Message) (cls : class) : bool :=
  match msg with
  | None => false
  | Some m => isinstance m cls
  end.

End Msg.

(** ** The actor runtime ([smartwatts/actor/actor.py]) *)

Module Actor.
Import Msg.

(** The step function stored in [state.behaviour]. *)
Inductive Behaviour : Type :=
| InitialBehaviour
| OtherBehaviour (n : nat).

(** The attributes of the state object that the runtime reads.
    [socket_interface] is the reference to the socket object; what travels
    over the sockets is recorded in the trace, not here. *)
Record State : Type := mkState {
  alive : bool;
  initialized : bool;
  behaviour : Behaviour;
  socket_interface : nat;
  attrs : list (string * string)
}.

Definition set_alive (s : State) (b : bool) : State :=
  mkState b (initialized s) (behaviour s) (socket_interface s) (attrs s).
Definition set_initialized (s : State) (b : bool) : State :=
  mkState (alive s) b (behaviour s) (socket_interface s) (attrs s).
Definition set_behaviour (s : State) (b : Behaviour) : State :=
  mkState (alive s) (initialized s) b (socket_interface s) (attrs s).

(** What a handler may do besides computing the next state. [HookCall]
    marks the entry into an overridable hook of the handler. *)
Inductive Effect : Type :=
| SendControl (m : Message)
| Send (m : Message)
| HookCall (hook : string).

(** The outcome of one handler call: the effects it performed, in order,
    and either the state it returns or the exception it raises. *)
Record Reply : Type := mkReply {
  effects : list Effect;
  outcome : Result State
}.

(** A handler object: an identity and its two entry points.  The dispatch
    loop calls [handle_message]; the timeout path calls [handle] with
    [None]. *)
Record Handler : Type := mkHandler {
  handler_id : nat;
  handle : option Message -> State -> Reply;
  handle_message : Message -> State -> Reply
}.

Inductive LogLine : Type :=
| LogIm (name : string)
| LogReceived (msg_list : list Message)
| LogTerminated.

Inductive Event : Type :=
| EvSetProcTitle (name : string)
| EvSocketSetup
| EvSignalSetup
| EvReceive (msg_list : list Message)
| EvLog (line : LogLine)
| EvHandle (h : nat) (msg : option Message) (s : State)
| EvHandleMessage (h : nat) (msg : Message) (s : State)
| EvEffect (e : Effect)
| EvTerminatedBehaviour
| EvSocketClose.

(** The entries into handlers among the events of a trace: which handler
    was called, through which entry point, on which message and state. *)
Definition is_invocation (e : Event) : bool :=
  match e with
  | EvHandle _ _ _ | EvHandleMessage _ _ _ => true
  | _ => false
  end.

Definition invocations (t : list Event) : list Event :=
  List.filter is_invocation t.

(** The world around one actor process: what the successive calls of
    [socket_interface.receive()] return, how many calls were made, and the
    trace of everything the process did so far, oldest first. *)
Record World : Type := mkWorld {
  incoming : nat -> list Message;
  received : nat;
  trace : list Event
}.

Definition M (A : Type) : Type := World -> World * Result A.

Definition ret {A} (a : A) : M A := fun w => (w, Ok a).
Definition raise {A} (e : Exn) : M A := fun w => (w, Raise e).
Definition bind {A B} (c : M A) (k : A -> M B) : M B :=
  fun w =>
    match c w with
    | (w', Ok a) => k a w'
    | (w', Raise e) => (w', Raise e)
    end.

Declare Scope actor_scope.
Delimit Scope actor_scope with actor.
Notation "x <- c ;; k" := (bind c (fun x => k))
  (at level 100, c at next level, right associativity) : actor_scope.
Notation "c ;; k" := (bind c (fun _ => k))
  (at level 100, right associativity) : actor_scope.
Local Open Scope actor_scope.

Definition emit (e : Event) : M unit :=
  fun w => (mkWorld (incoming w) (received w) (trace w ++ [e]), Ok tt).

Definition emit_all (es : list Event) : M unit :=
  fun w => (mkWorld (incoming w) (received w) (trace w ++ es), Ok tt).

Definition lift {A} (r : Result A) : M A := fun w => (w, r).

(** [socket_interface.receive()] *)
Definition receive : M (list Message) :=
  fun w =>
    let msg_list := incoming w (received w) in
    (mkWorld (incoming w) (S (received w)) (trace w ++ [EvReceive msg_list]),
     Ok msg_list).

(** Running a handler call: its effects reach the world, then it returns
    or raises. *)
Definition call (r : Reply) : M State :=
  emit_all (map EvEffect (effects r));; lift (outcome r).

Record Actor : Type := mkActor {
  name : string;
  verbose : bool;
  timeout : option nat;
  state : State;
  timeout_handler : option Handler;
  handlers : list (class * Handler)
}.

Definition set_state (self : Actor) (s : State) : Actor :=
  mkActor (name self) (verbose self) (timeout self) s
          (timeout_handler self) (handlers self).

(** [Actor.__init__]: no handler, no timeout handler.  The source leaves
    [state] at [None] for the concrete actor class to fill in before [run];
    here the state it fills in is an argument. *)
Definition init (name : string) (verbose : bool) (timeout : option nat)
    (state : State) : Actor :=
  mkActor name verbose timeout state None [].

(** [Actor.log] *)
Definition log (self : Actor) (message : LogLine) : M unit :=
  if verbose self then emit (EvLog message) else ret tt.

(** [Actor.get_corresponding_handler]: the [for] loop over [self.handlers]. *)
Fixpoint scan_handlers (hs : list (class * Handler)) (msg : Message)
    : Result Handler :=
  match hs with
  | [] => Raise UnknowMessageTypeException
  | (msg_type, handler) :: rest =>
      if isinstance msg msg_type then Ok handler
      else scan_handlers rest msg
  end.

Definition get_corresponding_handler (self : Actor) (msg : Message)
    : Result Handler :=
  scan_handlers (handlers self) msg.

(** [Actor.add_handler] *)
Definition add_handler (self : Actor) (message_type : class)
    (handler : Handler) : Actor :=
  mkActor (name self) (verbose self) (timeout self) (state self)
          (timeout_handler self) (handlers self ++ [(message_type, handler)]).

(** The handler table after a sequence of registrations. *)
Definition add_handlers (self : Actor) (regs : list (class * Handler))
    : Actor :=
  fold_left (fun a r => add_handler a (fst r) (snd r)) regs self.

(** One iteration of the [for msg in msg_list] loop of
    [_initial_behaviour]. *)
Definition dispatch (self : Actor) (msg : Message) : M Actor :=
  handler <- lift (get_corresponding_handler self msg);;
  emit (EvHandleMessage (handler_id handler) msg (state self));;
  s <- call (handle_message handler msg (state self));;
  ret (set_state self s).

(** The [for msg in msg_list] loop: an exception leaves the loop. *)
Fixpoint dispatch_all (self : Actor) (msg_list : list Message) : M Actor :=
  match msg_list with
  | [] => ret self
  | msg :: rest =>
      self' <- dispatch self msg;;
      dispatch_all self' rest
  end.

(** [Actor._initial_behaviour] *)
Definition _initial_behaviour (self : Actor) : M Actor :=
  msg_list <- receive;;
  log self (LogReceived msg_list);;
  match msg_list with
  | [] =>
      match timeout_handler self with
      | None => raise AttributeError
      | Some th =>
          emit (EvHandle (handler_id th) None (state self));;
          s <- call (handle th None (state self));;
          ret (set_state self s)
      end
  | _ :: _ => dispatch_all self msg_list
  end.

(** [Actor.terminated_behaviour]: [pass]; the trace records the call. *)
Definition terminated_behaviour (self : Actor) : M unit :=
  emit EvTerminatedBehaviour.

(** [Actor._kill_process] *)
Definition _kill_process (self : Actor) : M unit :=
  terminated_behaviour self;;
  emit EvSocketClose;;
  log self LogTerminated.

(** The events of [_kill_process], in order. *)
Definition kill_events (self : Actor) : list Event :=
  EvTerminatedBehaviour :: EvSocketClose ::
  (if verbose self then [EvLog LogTerminated] else []).

(** An entry of the handler table whose type [m] is not an instance of. *)
Definition no_match (m : Message) (entry : class * Handler) : Prop :=
  isinstance m (fst entry) = false.

(** The world after appending events to the trace. *)
Definition after (w : World) (es : list Event) : World :=
  mkWorld (incoming w) (received w) (trace w ++ es).

(** What the caller of a handler sees of its reply. *)
Definition continue_with (self : Actor) (r : Reply) : Result Actor :=
  match outcome r with
  | Ok s => Ok (set_state self s)
  | Raise e => Raise e
  end.

(** The events of [receive] and of the [log] call that follows it. *)
Definition receive_events (self : Actor) (msg_list : list Message)
    : list Event :=
  EvReceive msg_list ::
  (if verbose self then [EvLog (LogReceived msg_list)] else []).

(** [Actor.setup], when the process title, the sockets and the signal
    handlers can be set up: the four actions, in order. *)
Definition setup (self : Actor) : M unit :=
  emit (EvSetProcTitle (name self));;
  emit EvSocketSetup;;
  log self (LogIm (name self));;
  emit EvSignalSetup.

(** The messages on which [handle_message] was entered, oldest first. *)
Definition invoked_messages (t : list Event) : list Message :=
  flat_map (fun e => match e with
                     | EvHandleMessage _ m _ => [m]
                     | _ => []
                     end) t.

(** What [Actor.__init__] and [add_handler] set up and the behaviour never
    touches: everything but the state. *)
Definition same_configuration (a b : Actor) : Prop :=
  name a = name b /\ verbose a = verbose b /\ timeout a = timeout b
  /\ timeout_handler a = timeout_handler b /\ handlers a = handlers b.

Section Run.

(** The step functions an actor may install in [state.behaviour] besides
    [_initial_behaviour]. *)
Variable other_behaviour : nat -> Actor -> M Actor.

(** [self.state.behaviour(self)] *)
Definition behave (self : Actor) : M Actor :=
  match behaviour (state self) with
  | InitialBehaviour => _initial_behaviour self
  | OtherBehaviour n => other_behaviour n self
  end.

(** The [while self.state.alive] loop followed by [_kill_process].  The
    loop need not end; [None] means that [fuel] iterations were not
    enough. *)
Fixpoint run_loop (fuel : nat) (self : Actor) (w : World)
    : option (World * Result Actor) :=
  if alive (state self) then
    match fuel with
    | 0 => None
    | S fuel' =>
        match behave self w with
        | (w', Ok self') => run_loop fuel' self' w'
        | (w', Raise e) => Some (w', Raise e)
        end
    end
  else
    Some ((_kill_process self;; ret self) w).

(** [reaches self w a w0]: from the actor [self] in the world [w], the
    loop arrives at the actor [a] in the world [w0] by behaviour steps,
    each taken on an actor that is alive and each returning normally. *)
Inductive reaches : Actor -> World -> Actor -> World -> Prop :=
| reaches_here (self : Actor) (w : World) : reaches self w self w
| reaches_step (self self1 a : Actor) (w w1 w0 : World) :
    alive (state self) = true ->
    behave self w = (w1, Ok self1) ->
    reaches self1 w1 a w0 ->
    reaches self w a w0.

(** [Actor.run] *)
Definition run (fuel : nat) (self : Actor) (w : World)
    : option (World * Result Actor) :=
  match setup self w with
  | (w', Ok _) => run_loop fuel self w'
  | (w', Raise e) => Some (w', Raise e)
  end.

End Run.

End Actor.

(** ** The start handshake ([smartwatts/handler/start_handler.py]) *)

Module StartHandler.
Import Msg Actor.

Section StartHandler.

(** The hook [StartHandler.initialization], which concrete handlers
    override. *)
Variable initialization : State -> State.

(** [StartHandler.handle] *)
Definition handle (msg : option Message) (state : State) : Reply :=
  if initialized state then
    mkReply [SendControl (ErrorMessage "Actor already initialized")]
            (Ok state)
  else if negb (isinstance_opt msg "StartMessage") then
    mkReply [] (Ok state)
  else
    let state := initialization state in
    let state := set_initialized state true in
    mkReply [HookCall "initialization"; SendControl OKMessage] (Ok state).

End StartHandler.

(** How many times a reply entered a hook. *)
Definition is_hook_call (e : Effect) : bool :=
  match e with
  | HookCall _ => true
  | _ => false
  end.

Definition hook_calls (es : list Effect) : nat :=
  List.length (List.filter is_hook_call es).

Definition is_ok_reply (e : Effect) : bool :=
  match e with
  | SendControl m => isinstance m "OKMessage"
  | _ => false
  end.

Definition ok_replies (es : list Effect) : nat :=
  List.length (List.filter is_ok_reply es).

Section Sequence.

Variable initialization : State -> State.

(** The handler called on successive messages, the state returned by one
    call being passed to the next, as the dispatch loop does with
    [self.state]: all the effects, in order, and the last state. *)
Fixpoint handle_all (msgs : list (option Message)) (state : State)
    : list Effect * State :=
  match msgs with
  | [] => ([], state)
  | msg :: rest =>
      match outcome (handle initialization msg state) with
      | Ok state' =>
          (effects (handle initialization msg state)
             ++ fst (handle_all rest state'),
           snd (handle_all rest state'))
      | Raise _ => (effects (handle initialization msg state), state)
      end
  end.

End Sequence.

(** The body of [initialization] in the base class: [return state]. *)
Definition default_initialization (state : State) : State := state.

End StartHandler.

(** ** The routing filter ([powerapi/filter.py]) *)

Module Filter.

Section Filter.

Variables Report ActorAddress : Type.

Record Filter : Type := mkFilter {
  filters : list ((Report -> bool) * ActorAddress)
}.

(** [Filter.__init__] *)
Definition init : Filter := mkFilter [].

(** [Filter.filter] *)
Definition filter (self : Filter) (rule : Report -> bool)
    (dispatcher : ActorAddress) : Filter :=
  mkFilter (filters self ++ [(rule, dispatcher)]).

(** The [for rule, dispatcher in self.filters] loop of [route], with the
    list [dispatchers] built so far. *)
Fixpoint route_loop (fs : list ((Report -> bool) * ActorAddress))
    (report : Report) (dispatchers : list ActorAddress) : list ActorAddress :=
  match fs with
  | [] => dispatchers
  | (rule, dispatcher) :: rest =>
      if rule report then route_loop rest report (dispatchers ++ [dispatcher])
      else route_loop rest report dispatchers
  end.

(** [Filter.route] *)
Definition route (self : Filter) (report : Report)
    : Result (list ActorAddress) :=
  match filters self with
  | [] => Raise RuntimeError
  | _ :: _ => Ok (route_loop (filters self) report [])
  end.

End Filter.

Arguments mkFilter {Report ActorAddress} filters.
Arguments filters {Report ActorAddress} f.
Arguments init {Report ActorAddress}.
Arguments filter {Report ActorAddress} self rule dispatcher.
Arguments route_loop {Report ActorAddress} fs report dispatchers.
Arguments route {Report ActorAddress} self report.

End Filter.

(** ** Grouped HWPC reports ([powerapi/rx/hwpc_reports_group.py]) *)

Module HWPC.

Local Open Scope result_scope.

(** A Python [dict] with string keys: the keys are distinct and iteration
    follows insertion order. *)
Definition Dict (V : Type) : Type := list (string * V).

Fixpoint dict_get {V} (d : Dict V) (k : string) : option V :=
  match d with
  | [] => None
  | (k', v) :: rest => if String.eqb k k' then Some v else dict_get rest k
  end.

(** [d[k] = v]: an existing key keeps its place, a new key goes last. *)
Fixpoint dict_set {V} (d : Dict V) (k : string) (v : V) : Dict V :=
  match d with
  | [] => [(k, v)]
  | (k', v') :: rest =>
      if String.eqb k k' then (k', v) :: rest
      else (k', v') :: dict_set rest k v
  end.

Definition Events : Type := Dict Z.
Definition Cores : Type := Dict Events.
Definition Sockets : Type := Dict Cores.
Definition Groups : Type := Dict Sockets.

(** One input dictionary of [create_reports_group_from_dicts].  A field is
    [None] when the dictionary has no such key. *)
Record ReportDict : Type := mkReportDict {
  rd_timestamp : option Z;
  rd_sensor : option string;
  rd_target : option string;
  rd_groups : option Groups;
  rd_metadata : option (Dict string)
}.

(** One line of the data frame held in [self.report]. *)
Record Row : Type := mkRow {
  target : string;
  groups : string;
  socket_id : string;
  core_id : string;
  event_id : string;
  event_value : Z
}.

(** The data frame: its lines in index order. *)
Definition Report : Type := list Row.

Record HWPCReportsGroup : Type := mkGroup {
  timestamp : Z;
  sensor : string;
  metadata : Dict string;
  report : Report
}.

(** Modelled from the spec: [ReportsGroup.is_basic_information_in_reports_dict]
    is not among the sources; construction fails when any input row lacks
    one of the keys timestamp, sensor, target (and groups, which
    [is_information_in_reports_dict] checks itself). *)
Definition is_basic_information_in_reports_dict
    (reports_dict : list ReportDict) : bool :=
  forallb (fun d =>
    match rd_timestamp d, rd_sensor d, rd_target d with
    | Some _, Some _, Some _ => true
    | _, _, _ => false
    end) reports_dict.

(** [HWPCReportsGroup.is_information_in_reports_dict] *)
Fixpoint is_information_in_reports_dict_loop
    (todo all : list ReportDict) : bool :=
  match todo with
  | [] => is_basic_information_in_reports_dict all
  | current_report_dict :: rest =>
      match rd_groups current_report_dict with
      | None => false
      | Some _ => is_information_in_reports_dict_loop rest all
      end
  end.

Definition is_information_in_reports_dict (reports_dict : list ReportDict)
    : bool :=
  is_information_in_reports_dict_loop reports_dict reports_dict.

(** The four nested [.items()] loops over one input dictionary: a line for
    each event value. *)
Definition lines_of (current_target : string) (current_groups_dict : Groups)
    : list Row :=
  flat_map (fun gs =>
    flat_map (fun sc =>
      flat_map (fun ce =>
        map (fun ev =>
               mkRow current_target (fst gs) (fst sc) (fst ce)
                     (fst ev) (snd ev))
            (snd ce))
        (snd sc))
      (snd gs))
    current_groups_dict.

(** The loop [for current_report_dict in reports_dict] that fills
    [report_data_dict]. *)
Fixpoint collect_lines (reports_dict : list ReportDict) (acc : list Row)
    : Result (list Row) :=
  match reports_dict with
  | [] => Ok acc
  | current_report_dict :: rest =>
      match rd_groups current_report_dict with
      | None => Raise (KeyError "groups")
      | Some current_groups_dict =>
          match rd_target current_report_dict with
          | None => Raise (KeyError "target")
          | Some current_target =>
              collect_lines rest
                (acc ++ lines_of current_target current_groups_dict)
          end
      end
  end.

(** [HWPCReportsGroup.create_reports_group_from_dicts] *)
Definition create_reports_group_from_dicts (reports_dict : list ReportDict)
    : Result HWPCReportsGroup :=
  if negb (is_information_in_reports_dict reports_dict) then
    Raise BadInputDataException
  else
    try! report := collect_lines reports_dict [] in
    match reports_dict with
    | [] => Raise IndexError
    | current_report_dict :: _ =>
        let metadata :=
          match rd_metadata current_report_dict with
          | None => []
          | Some m => m
          end in
        match rd_timestamp current_report_dict with
        | None => Raise (KeyError "timestamp")
        | Some ts =>
            match rd_sensor current_report_dict with
            | None => Raise (KeyError "sensor")
            | Some sn => Ok (mkGroup ts sn metadata report)
            end
        end
    end.

(** The column of values of the data frame has dtype [int64] when every
    value fits one.  A sum over such a column is computed in [int64]: it
    is the sum modulo 2^64, read as a signed number. *)
Definition in_int64 (z : Z) : Prop := (- 2 ^ 63 <= z < 2 ^ 63)%Z.

Definition wrap_int64 (z : Z) : Z :=
  ((z + 2 ^ 63) mod 2 ^ 64 - 2 ^ 63)%Z.

(** [report.groupby(keys, sort=False).indices]: for each key, the indices
    of the lines that carry it, the keys in order of first appearance.
    For a grouping on several columns pandas lists the keys in another
    order; the entry of each key is the same, and the properties below
    are about the entries, not about the order of the keys. *)
Section GroupBy.

Context {K : Type} (eqb : K -> K -> bool) (key : Row -> K).

Fixpoint add_index (k : K) (i : nat) (gs : list (K * list nat))
    : list (K * list nat) :=
  match gs with
  | [] => [(k, [i])]
  | (k', idx) :: rest =>
      if eqb k k' then (k', idx ++ [i]) :: rest
      else (k', idx) :: add_index k i rest
  end.

Fixpoint groupby_from (rows : list Row) (i : nat) (gs : list (K * list nat))
    : list (K * list nat) :=
  match rows with
  | [] => gs
  | r :: rest => groupby_from rest (S i) (add_index (key r) i gs)
  end.

Definition groupby_indices (rows : Report) : list (K * list nat) :=
  groupby_from rows 0 [].

Fixpoint lookup (k : K) (l : list (K * Z)) : option Z :=
  match l with
  | [] => None
  | (k', v) :: rest => if eqb k k' then Some v else lookup k rest
  end.

(** [report.groupby(keys, sort=False)[EVENT_VALUE_CN].sum()] on the
    [int64] column of values: the sum of each group wraps around. *)
Definition groupby_sum (rows : Report) : list (K * Z) :=
  map (fun g =>
         (fst g,
          wrap_int64
            (fold_left Z.add
               (map (fun i => match nth_error rows i with
                              | Some r => event_value r
                              | None => 0%Z
                              end) (snd g))
               0%Z)))
      (groupby_indices rows).

End GroupBy.

Definition key2_eqb (a b : string * string) : bool :=
  String.eqb (fst a) (fst b) && String.eqb (snd a) (snd b).

Definition key4_eqb (a b : string * string * string * string) : bool :=
  match a, b with
  | (a1, a2, a3, a4), (b1, b2, b3, b4) =>
      String.eqb a1 b1 && String.eqb a2 b2 && String.eqb a3 b3
      && String.eqb a4 b4
  end.

(** *** Serialisation: [to_mongodb_dict]

    The dictionaries that [to_mongodb_dict] puts in its result are objects:
    the result is a list of references into a store, and what a caller sees
    is what the store holds when the method returns. *)

Record MongoDoc : Type := mkMongoDoc {
  doc_timestamp : Z;
  doc_sensor : string;
  doc_metadata : Dict string;
  doc_target : option string;
  doc_groups : option Groups
}.

Definition set_doc_target (d : MongoDoc) (t : string) : MongoDoc :=
  mkMongoDoc (doc_timestamp d) (doc_sensor d) (doc_metadata d) (Some t)
             (doc_groups d).
Definition set_doc_groups (d : MongoDoc) (g : Groups) : MongoDoc :=
  mkMongoDoc (doc_timestamp d) (doc_sensor d) (doc_metadata d)
             (doc_target d) (Some g).

Definition ref : Type := nat.
Definition Store : Type := list MongoDoc.

Definition alloc (st : Store) (d : MongoDoc) : Store * ref :=
  (st ++ [d], List.length st).

Definition deref (st : Store) (r : ref) : option MongoDoc := nth_error st r.

Fixpoint store_update (st : Store) (r : ref) (f : MongoDoc -> MongoDoc)
    : Store :=
  match st, r with
  | [], _ => []
  | d :: rest, 0 => f d :: rest
  | d :: rest, S r' => d :: store_update rest r' f
  end.

(** Modelled from the spec: [ReportsGroup._to_mongodb_dict_basic_infos] is
    not among the sources; it builds the dictionary of the basic
    information of the group (timestamp, sensor, metadata), to which
    [to_mongodb_dict] adds the target and the groups. *)
Definition _to_mongodb_dict_basic_infos (self : HWPCReportsGroup)
    : MongoDoc :=
  mkMongoDoc (timestamp self) (sensor self) (metadata self) None None.

(** [if k not in d: d[k] = {}] followed by a change of [d[k]]. *)
Definition dict_upd {V} (d : Dict (Dict V)) (k : string)
    (f : Dict V -> Dict V) : Dict (Dict V) :=
  match dict_get d k with
  | None => dict_set d k (f [])
  | Some sub => dict_set d k (f sub)
  end.

(** The body of the loop over the lines of one target, on the value of
    [current_report_dict[GROUPS_CN]]. *)
Definition add_event (g : Groups) (current_row : Row) : Groups :=
  dict_upd g (groups current_row) (fun sockets =>
    dict_upd sockets (socket_id current_row) (fun cores =>
      dict_upd cores (core_id current_row) (fun events =>
        dict_set events (event_id current_row) (event_value current_row)))).

Definition doc_add_event (current_row : Row) (d : MongoDoc) : MongoDoc :=
  set_doc_groups d
    (add_event (match doc_groups d with Some g => g | None => [] end)
               current_row).

(** [for current_row_index in group_by_target_dict[current_target]] *)
Fixpoint fill_lines (rep : Report) (indices : list nat) (st : Store)
    (current_report_dict : ref) : Result Store :=
  match indices with
  | [] => Ok st
  | current_row_index :: rest =>
      match nth_error rep current_row_index with
      | None => Raise IndexError
      | Some current_row =>
          fill_lines rep rest
            (store_update st current_report_dict (doc_add_event current_row))
            current_report_dict
      end
  end.

(** [for current_target in group_by_target_dict.keys()].  The assignment
    [current_report_dict = report_dict_basics] binds the same object at
    every iteration. *)
Fixpoint targets_loop (rep : Report) (by_target : list (string * list nat))
    (report_dict_basics : ref) (st : Store) (reports_dict : list ref)
    : Result (Store * list ref) :=
  match by_target with
  | [] => Ok (st, reports_dict)
  | (current_target, indices) :: rest =>
      let current_report_dict := report_dict_basics in
      let st := store_update st current_report_dict
                  (fun d => set_doc_target d current_target) in
      let st := store_update st current_report_dict
                  (fun d => set_doc_groups d []) in
      try! st := fill_lines rep indices st current_report_dict in
      targets_loop rep rest report_dict_basics st
                   (reports_dict ++ [current_report_dict])
  end.

(** The body of [to_mongodb_dict] once [basics], the dictionary that
    [_to_mongodb_dict_basic_infos] returned, and [by_target], the groups of
    line indices by target in the order in which they are visited, are
    known.  The result is read through the store as it is on return. *)
Definition to_mongodb_dict_over (self : HWPCReportsGroup)
    (basics : MongoDoc) (by_target : list (string * list nat))
    : Result (list (option MongoDoc)) :=
  let (st, report_dict_basics) := alloc [] basics in
  try! out := targets_loop (report self) by_target report_dict_basics st [] in
  Ok (map (deref (fst out)) (snd out)).

(** [HWPCReportsGroup.to_mongodb_dict] *)
Definition to_mongodb_dict (self : HWPCReportsGroup)
    : Result (list (option MongoDoc)) :=
  to_mongodb_dict_over self (_to_mongodb_dict_basic_infos self)
    (groupby_indices String.eqb target (report self)).

(** *** Queries *)

(** [HWPCReportsGroup.get_group_events].  [group in group_events_key] is
    membership in the pair (group name, event name). *)
Definition get_group_events (self : HWPCReportsGroup) (group : string)
    : list string :=
  let group_events_keys :=
    map fst (groupby_indices key2_eqb
               (fun r => (groups r, event_id r)) (report self)) in
  flat_map (fun group_events_key =>
              if String.eqb group (fst group_events_key)
                 || String.eqb group (snd group_events_key)
              then [snd group_events_key] else [])
           group_events_keys.

(** The loop [for event in group_events] inside the [try]: [None] stands
    for the [KeyError] that the [except] clause turns into [None]. *)
Fixpoint sum_events (sums_dict : list (string * string * string * string * Z))
    (target group socket : string) (group_events : list string)
    (group_event_sum : Dict Z) : option (Dict Z) :=
  match group_events with
  | [] => Some group_event_sum
  | event :: rest =>
      match lookup key4_eqb (target, group, socket, event) sums_dict with
      | None => None
      | Some v =>
          sum_events sums_dict target group socket rest
                     (dict_set group_event_sum event v)
      end
  end.

(** [HWPCReportsGroup.compute_group_event_sum] *)
Definition compute_group_event_sum (self : HWPCReportsGroup)
    (group target socket : string) : option (Dict Z) :=
  let group_events := get_group_events self group in
  if Nat.ltb 0 (List.length group_events) then
    let sums_dict :=
      groupby_sum key4_eqb
        (fun r => (HWPC.target r, groups r, socket_id r, event_id r))
        (report self) in
    sum_events sums_dict target group socket group_events []
  else None.

(** The entry of a key in the dictionary [groupby(...).indices]; [None]
    stands for [KeyError]. *)
Fixpoint find_group {K : Type} (eqb : K -> K -> bool) (k : K)
    (gs : list (K * list nat)) : option (list nat) :=
  match gs with
  | [] => None
  | (k', idx) :: rest => if eqb k k' then Some idx else find_group eqb k rest
  end.

Definition key3_eqb (a b : string * string * string) : bool :=
  match a, b with
  | (a1, a2, a3), (b1, b2, b3) =>
      String.eqb a1 b1 && String.eqb a2 b2 && String.eqb a3 b3
  end.

Definition key5_eqb (a b : string * string * string * string * string)
    : bool :=
  match a, b with
  | (a1, a2, a3, a4, a5), (b1, b2, b3, b4, b5) =>
      String.eqb a1 b1 && String.eqb a2 b2 && String.eqb a3 b3
      && String.eqb a4 b4 && String.eqb a5 b5
  end.

Definition key5 (r : Row) : string * string * string * string * string :=
  (target r, groups r, socket_id r, core_id r, event_id r).

Definition key4 (r : Row) : string * string * string * string :=
  (target r, groups r, socket_id r, event_id r).

Definition key3 (r : Row) : string * string * string :=
  (target r, groups r, socket_id r).

(** [HWPCReportsGroup.get_event_value].  The [KeyError] of a missing key
    is caught and gives [None]; [indices[0]] and [iloc] would raise
    [IndexError], which is not caught. *)
Definition get_event_value (self : HWPCReportsGroup)
    (target group socket core event_name : string) : Result (option Z) :=
  match find_group key5_eqb (target, group, socket, core, event_name)
          (groupby_indices key5_eqb key5 (report self)) with
  | None => Ok None
  | Some indices =>
      match indices with
      | [] => Raise IndexError
      | i :: _ =>
          match nth_error (report self) i with
          | None => Raise IndexError
          | Some row => Ok (Some (event_value row))
          end
      end
  end.

(** [HWPCReportsGroup.get_event_value_first_found_core] *)
Definition get_event_value_first_found_core (self : HWPCReportsGroup)
    (target group socket event_name : string) : Result (option Z) :=
  match find_group key3_eqb (target, group, socket)
          (groupby_indices key3_eqb key3 (report self)) with
  | None => Ok None
  | Some indices =>
      match indices with
      | [] => Raise IndexError
      | socket_index :: _ =>
          match nth_error (report self) socket_index with
          | None => Raise IndexError
          | Some row =>
              get_event_value self target group socket (core_id row)
                              event_name
          end
      end
  end.

(** The positions, from [i] on, of the lines of [rows] whose key is [k]. *)
Fixpoint positions {K : Type} (eqb : K -> K -> bool) (key : Row -> K)
    (k : K) (rows : list Row) (i : nat) : list nat :=
  match rows with
  | [] => []
  | r :: rest =>
      if eqb k (key r) then i :: positions eqb key k rest (S i)
      else positions eqb key k rest (S i)
  end.

(** The lines whose key is [k], and the [int64] sum of their values. *)
Definition lines_where {K : Type} (eqb : K -> K -> bool) (key : Row -> K)
    (k : K) (rows : list Row) : list Row :=
  List.filter (fun r => eqb k (key r)) rows.

Definition sum_where {K : Type} (eqb : K -> K -> bool) (key : Row -> K)
    (k : K) (rows : list Row) : Z :=
  wrap_int64
    (fold_left Z.add (map event_value (lines_where eqb key k rows)) 0%Z).

(** The lines that one input dictionary contributes to the report. *)
Definition dict_lines (d : ReportDict) : list Row :=
  match rd_target d, rd_groups d with
  | Some t, Some g => lines_of t g
  | _, _ => []
  end.

(** The value [v] is found in the nested dictionary [g] under the group,
    socket, core and event of the given names. *)
Definition has_value (g : Groups) (group socket core event : string) (v : Z)
    : Prop :=
  exists sockets cores events,
    In (group, sockets) g /\ In (socket, cores) sockets
    /\ In (core, events) cores /\ In (event, v) events.

(** The lines of one core, of one socket and of one group: the inner
    loops of [lines_of]. *)
Definition lines_of_events (t g sk c : string) (events : Events) : list Row :=
  map (fun ev => mkRow t g sk c (fst ev) (snd ev)) events.

Definition lines_of_cores (t g sk : string) (cores : Cores) : list Row :=
  flat_map (fun ce => lines_of_events t g sk (fst ce) (snd ce)) cores.

Definition lines_of_sockets (t g : string) (sockets : Sockets) : list Row :=
  flat_map (fun sc => lines_of_cores t g (fst sc) (snd sc)) sockets.

Definition keys {V} (d : Dict V) : list string := map fst d.

(** A nested dictionary of readings as a Python program can hold one and
    as the report can represent one: the keys of every dictionary are
    distinct, and no dictionary, at any level, is empty. *)
Definition events_ok (events : Events) : Prop :=
  NoDup (keys events) /\ events <> [].

Definition cores_ok (cores : Cores) : Prop :=
  NoDup (keys cores) /\ cores <> []
  /\ Forall (fun ce => events_ok (snd ce)) cores.

Definition sockets_ok (sockets : Sockets) : Prop :=
  NoDup (keys sockets) /\ sockets <> []
  /\ Forall (fun sc => cores_ok (snd sc)) sockets.

Definition groups_ok (g : Groups) : Prop :=
  NoDup (keys g) /\ g <> []
  /\ Forall (fun gs => sockets_ok (snd gs)) g.

(** What [add_event] does below the group, the socket and the core of a
    line. *)
Definition set_event (r : Row) (events : Events) : Events :=
  dict_set events (event_id r) (event_value r).

Definition upd_core (r : Row) (cores : Cores) : Cores :=
  dict_upd cores (core_id r) (set_event r).

Definition upd_socket (r : Row) (sockets : Sockets) : Sockets :=
  dict_upd sockets (socket_id r) (upd_core r).

(** [g[group][socket][core][event]], [None] when a key is missing. *)
Definition nested_get (g : Groups) (group socket core event : string)
    : option Z :=
  match dict_get g group with
  | None => None
  | Some sockets =>
      match dict_get sockets socket with
      | None => None
      | Some cores =>
          match dict_get cores core with
          | None => None
          | Some events => dict_get events event
          end
      end
  end.

(** The keys of every dictionary of the nest are distinct. *)
Definition distinct_keys (g : Groups) : Prop :=
  NoDup (keys g)
  /\ Forall (fun gs =>
       NoDup (keys (snd gs))
       /\ Forall (fun sc =>
            NoDup (keys (snd sc))
            /\ Forall (fun ce => NoDup (keys (snd ce))) (snd sc))
          (snd gs)) g.

(** The input dictionary has the four required keys. *)
Definition complete (d : ReportDict) : Prop :=
  rd_timestamp d <> None /\ rd_sensor d <> None
  /\ rd_target d <> None /\ rd_groups d <> None.

End HWPC.

(** ** The Mongo report source ([powerapi/sources/mongosource.py]) *)

Module MongoSource.
Import HWPC.

Section MongoSource.

(** [self.group_type]: the class of the grouped reports and its
    constructor from dictionaries. *)
Variable G : Type.
Variable create_reports_group_from_dicts : list ReportDict -> Result G.

(** The dictionary held in [self.current_group_dicts]. *)
Record CurrentGroup : Type := mkCurrent {
  cg_timestamp : Z;
  cg_dicts : list ReportDict
}.

(** What [subscribe] changes: the buffer of the source and the reports the
    operator received through [on_next], oldest first. *)
Record Run : Type := mkRun {
  current_group_dicts : option CurrentGroup;
  on_next : list G
}.

(** [MongoSource.initialize_current_group_dicts]; [ts] is
    [report_dict[TIMESTAMP_CN]], which the caller has just read. *)
Definition initialize_current_group_dicts (ts : Z) (report_dict : ReportDict)
    : CurrentGroup :=
  mkCurrent ts [report_dict].

(** The [while True] loop of [subscribe] in batch mode over what the
    cursor still holds; the end of the cursor is [StopIteration].  The two
    [print] calls write to the standard output only; the second one reads
    [report_dic[TIMESTAMP_CN]] and so raises [KeyError] on a document
    without timestamp. *)
Fixpoint subscribe_loop (cursor : list ReportDict) (s : Run)
    : Run * Result unit :=
  match cursor with
  | [] => (s, Ok tt)
  | report_dic :: rest =>
      match rd_timestamp report_dic with
      | None => (s, Raise (KeyError "timestamp"))
      | Some ts =>
          match current_group_dicts s with
          | Some cur =>
              if Z.eqb (cg_timestamp cur) ts then
                subscribe_loop rest
                  (mkRun (Some (mkCurrent (cg_timestamp cur)
                                          (cg_dicts cur ++ [report_dic])))
                         (on_next s))
              else
                match create_reports_group_from_dicts (cg_dicts cur) with
                | Raise e => (s, Raise e)
                | Ok reports_group =>
                    subscribe_loop rest
                      (mkRun (Some (initialize_current_group_dicts
                                      ts report_dic))
                             (on_next s ++ [reports_group]))
                end
          | None =>
              subscribe_loop rest
                (mkRun (Some (initialize_current_group_dicts ts report_dic))
                       (on_next s))
          end
      end
  end.

(** [MongoSource.subscribe] with [stream_mode] false, on a source just
    constructed ([current_group_dicts] is [None]) whose collection holds
    the documents [collection], in cursor order.  The branch for
    [stream_mode] true watches a change stream and is not modelled. *)
Definition subscribe (collection : list ReportDict) : Run * Result unit :=
  subscribe_loop collection (mkRun None []).

(** The reports received by the operator were built, one by one, from the
    groups of documents. *)
Definition built_from (gs : list G) (groups : list (list ReportDict)) : Prop :=
  Forall2 (fun g ds => create_reports_group_from_dicts ds = Ok g) gs groups.

End MongoSource.

(** The document carries the timestamp [ts]. *)
Definition has_timestamp (ts : Z) (d : ReportDict) : Prop :=
  rd_timestamp d = Some ts.

(** The documents still buffered in the source. *)
Definition buffered (cur : option CurrentGroup) : list ReportDict :=
  match cur with
  | Some c => cg_dicts c
  | None => []
  end.

(** What the loop keeps true of the buffer: it is not empty and its
    documents carry the timestamp recorded with it. *)
Definition buffer_ok (cur : option CurrentGroup) : Prop :=
  match cur with
  | Some c => cg_dicts c <> [] /\ Forall (has_timestamp (cg_timestamp c))
                                         (cg_dicts c)
  | None => True
  end.

(** [split_into docs groups rest]: the documents [docs] are the groups
    [groups], in order, followed by [rest]; every group is non-empty, its
    documents share one timestamp, and the document that follows the group
    carries another timestamp. *)
Inductive split_into
    : list ReportDict -> list (list ReportDict) -> list ReportDict -> Prop :=
| split_done (rest : list ReportDict) : split_into rest [] rest
| split_group (ts ts' : Z) (ds : list ReportDict) (next : ReportDict)
    (docs : list ReportDict) (groups : list (list ReportDict))
    (rest : list ReportDict) :
    ds <> [] ->
    Forall (has_timestamp ts) ds ->
    rd_timestamp next = Some ts' ->
    ts' <> ts ->
    split_into (next :: docs) groups rest ->
    split_into (ds ++ next :: docs) (ds :: groups) rest.

Arguments built_from {G} create_reports_group_from_dicts gs groups.
Arguments mkRun {G} current_group_dicts on_next.
Arguments current_group_dicts {G} r.
Arguments on_next {G} r.
Arguments subscribe_loop {G} create_reports_group_from_dicts cursor s.
Arguments subscribe {G} create_reports_group_from_dicts collection.

End MongoSource.

(** ** Concrete actors, filters and reports used to exercise the model *)

Module Examples.
Import Msg Actor.

Definition st0 : State := mkState true false InitialBehaviour 0 [].

(** A handler for [PoisonPillMessage]: it clears [state.alive]. *)
Definition stop_handler : Handler :=
  mkHandler 1
    (fun _ s => mkReply [] (Ok (set_alive s false)))
    (fun _ s => mkReply [] (Ok (set_alive s false))).

(** A catch-all handler registered for [object]. *)
Definition catch_all : Handler :=
  mkHandler 2
    (fun _ s => mkReply [] (Ok s))
    (fun _ s => mkReply [] (Ok s)).

(** A timeout handler that sends a heartbeat on the data channel. *)
Definition tick_handler : Handler :=
  mkHandler 3
    (fun _ s => mkReply [Send OKMessage] (Ok s))
    (fun _ s => mkReply [Send OKMessage] (Ok s)).

(** A handler for [StartMessage] that acknowledges on the control channel
    and marks the state initialized. *)
Definition ack_handler : Handler :=
  mkHandler 4
    (fun _ s => mkReply [SendControl OKMessage] (Ok (set_initialized s true)))
    (fun _ s => mkReply [SendControl OKMessage] (Ok (set_initialized s true))).

(** A timeout handler that sends a heartbeat and swaps the behaviour. *)
Definition beat_handler : Handler :=
  mkHandler 5
    (fun _ s => mkReply [Send OKMessage]
                        (Ok (set_behaviour s (OtherBehaviour 1))))
    (fun _ s => mkReply [Send OKMessage]
                        (Ok (set_behaviour s (OtherBehaviour 1)))).

Definition fresh_actor : Actor := init "puller" false (Some 100) st0.

Definition acker : Actor :=
  add_handlers fresh_actor
    [("StartMessage", ack_handler); ("object", catch_all)].

Definition beating : Actor :=
  mkActor "beater" true (Some 100) st0 (Some beat_handler) [].

Definition worker : Actor :=
  add_handlers fresh_actor
    [("PoisonPillMessage", stop_handler); ("object", catch_all)].

Definition start_only : Actor :=
  add_handlers fresh_actor [("StartMessage", catch_all)].

Definition ticking : Actor :=
  mkActor "ticker" false (Some 100) st0 (Some tick_handler) [].

(** A world whose first [receive] returns one poison pill and whose later
    ones time out. *)
Definition pill_world : World :=
  mkWorld (fun n => match n with
                    | 0 => [PoisonPillMessage]
                    | S _ => []
                    end) 0 [].

Definition quiet_world : World := mkWorld (fun _ => []) 0 [].

(** An actor whose only handler is the one for [PoisonPillMessage], and a
    world whose first [receive] returns a poison pill followed by a
    message of another class. *)
Definition pill_only : Actor :=
  add_handlers fresh_actor [("PoisonPillMessage", stop_handler)].

Definition pill_then_ok_world : World :=
  mkWorld (fun n => match n with
                    | 0 => [PoisonPillMessage; OKMessage]
                    | S _ => []
                    end) 0 [].

Definition no_other_behaviour (n : nat) (self : Actor) : M Actor :=
  ret self.

Definition initialized_state : State :=
  mkState true true InitialBehaviour 0 [].

(** The world in which [run] has done its setup for [worker] and the
    first [receive] will return one poison pill. *)
Definition set_up_world : World :=
  mkWorld (incoming pill_world) 0
    [EvSetProcTitle "puller"; EvSocketSetup; EvSignalSetup].

Definition stopped_worker : Actor :=
  set_state worker (set_alive st0 false).

Definition stopped_world : World :=
  mkWorld (incoming pill_world) 1
    [EvSetProcTitle "puller"; EvSocketSetup; EvSignalSetup;
     EvReceive [PoisonPillMessage];
     EvHandleMessage 1 PoisonPillMessage st0;
     EvTerminatedBehaviour; EvSocketClose].

(** A filter with two rules on integer reports: the even ones go to
    dispatcher 1, the ones above 10 to dispatcher 2. *)
Definition parity_filter : Filter.Filter Z nat :=
  Filter.filter (Filter.filter Filter.init Z.even 1)
                (fun r => Z.ltb 10 r) 2.

(** An input dictionary with one event value: sensor s1, group msr,
    socket 0, event e1. *)
Definition row_at (ts : Z) (t c : string) (v : Z) : HWPC.ReportDict :=
  HWPC.mkReportDict (Some ts) (Some "s1") (Some t)
    (Some [("msr", [("0", [(c, [("e1", v)])])])]) None.

Definition row : string -> string -> Z -> HWPC.ReportDict := row_at 10.

(** A collection whose final timestamp, 10, is also that of its first
    document, with a document of timestamp 11 in between. *)
Definition recurring : list HWPC.ReportDict :=
  [row_at 10 "t1" "0" 3; row_at 11 "t1" "0" 5; row_at 10 "t1" "0" 7].

(** A collection with two documents at timestamp 10 and one at 11. *)
Definition collection : list HWPC.ReportDict :=
  [row_at 10 "t1" "0" 3; row_at 10 "t1" "1" 5; row_at 11 "t1" "0" 7].

Definition two_cores : list HWPC.ReportDict :=
  [row "t1" "0" 3; row "t1" "1" 5].

Definition two_targets : list HWPC.ReportDict :=
  [row "t1" "0" 3; row "t2" "0" 5].

(** The dictionary [basics] after the target [t] and the value [v] of
    event e1 (group msr, socket 0, core 0) were written into it. *)
Definition doc_over (basics : HWPC.MongoDoc) (t : string) (v : Z)
    : HWPC.MongoDoc :=
  HWPC.set_doc_groups (HWPC.set_doc_target basics t)
    [("msr", [("0", [("0", [("e1", v)])])])].

Definition doc : string -> Z -> HWPC.MongoDoc :=
  doc_over (HWPC.mkMongoDoc 10 "s1" [] None None).

End Examples.

(** * Properties *)

(** ** Handler lookup and dispatch *)

Section ActorProperties.
Import Msg Actor.

Lemma handlers_add_handlers (self : Actor) (regs : list (class * Handler)) :
  handlers (add_handlers self regs) = handlers self ++ regs.
Proof.
  unfold add_handlers. revert self.
  induction regs as [|r regs IH]; intro self; simpl.
  - now rewrite app_nil_r.
  - rewrite IH. destruct r as [ty h]. simpl. now rewrite <- app_assoc.
Qed.

Lemma state_add_handlers (self : Actor) (regs : list (class * Handler)) :
  state (add_handlers self regs) = state self.
Proof.
  unfold add_handlers. revert self.
  induction regs as [|r regs IH]; intro self; simpl; [reflexivity|].
  now rewrite IH.
Qed.

Lemma scan_handlers_first_match (m : Message) (pre post : list (class * Handler))
    (ty : class) (h : Handler) :
  Forall (no_match m) pre ->
  isinstance m ty = true ->
  scan_handlers (pre ++ (ty, h) :: post) m = Ok h.
Proof.
  intros Hpre Hty.
  induction Hpre as [|[ty' h'] pre Hx _ IH]; simpl.
  - now rewrite Hty.
  - unfold no_match in Hx. simpl in Hx. now rewrite Hx.
Qed.

Lemma scan_handlers_no_match (m : Message) (hs : list (class * Handler)) :
  Forall (no_match m) hs ->
  scan_handlers hs m = Raise UnknowMessageTypeException.
Proof.
  induction 1 as [|[ty h] hs Hx _ IH]; simpl; [reflexivity|].
  unfold no_match in Hx. simpl in Hx. now rewrite Hx.
Qed.

(** Whatever [scan_handlers] returns is the handler of the first matching
    entry, and it raises only when no entry matches. *)
Lemma scan_handlers_spec (m : Message) (hs : list (class * Handler)) :
  match scan_handlers hs m with
  | Ok h => exists pre ty post,
      hs = pre ++ (ty, h) :: post /\ Forall (no_match m) pre
      /\ isinstance m ty = true
  | Raise e => e = UnknowMessageTypeException /\ Forall (no_match m) hs
  end.
Proof.
  induction hs as [|[ty h] hs IH]; simpl.
  - split; [reflexivity | constructor].
  - destruct (isinstance m ty) eqn:E.
    + exists [], ty, hs. repeat split; [constructor | exact E].
    + destruct (scan_handlers hs m) as [h'|e].
      * destruct IH as (pre & ty' & post & -> & Hpre & Hty).
        exists ((ty, h) :: pre), ty', post.
        repeat split; [constructor; [exact E | exact Hpre] | exact Hty].
      * destruct IH as [-> Hall]. split; [reflexivity|].
        constructor; [exact E | exact Hall].
Qed.

Lemma invocations_app (t1 t2 : list Event) :
  invocations (t1 ++ t2) = invocations t1 ++ invocations t2.
Proof. apply filter_app. Qed.

Lemma invocations_effects (es : list Effect) :
  invocations (map EvEffect es) = [].
Proof. induction es; simpl; auto. Qed.

Lemma dispatch_found (self : Actor) (m : Message) (h : Handler) (w : World) :
  get_corresponding_handler self m = Ok h ->
  dispatch self m w =
    (after w (EvHandleMessage (handler_id h) m (state self)
              :: map EvEffect (effects (handle_message h m (state self)))),
     continue_with self (handle_message h m (state self))).
Proof.
  intro H. unfold dispatch, bind, lift, call, emit, emit_all, ret, after,
    continue_with.
  rewrite H. simpl.
  destruct (outcome (handle_message h m (state self)));
    now rewrite <- app_assoc.
Qed.

Lemma dispatch_all_unknown (self : Actor) (m : Message) (rest : list Message)
    (w : World) :
  get_corresponding_handler self m = Raise UnknowMessageTypeException ->
  dispatch_all self (m :: rest) w = (w, Raise UnknowMessageTypeException).
Proof.
  intro H. simpl. unfold bind, dispatch, bind, lift. now rewrite H.
Qed.

Lemma initial_behaviour_unfold (self : Actor) (w : World) :
  _initial_behaviour self w =
    let msg_list := incoming w (received w) in
    let w1 := mkWorld (incoming w) (S (received w))
                      (trace w ++ receive_events self msg_list) in
    match msg_list with
    | [] =>
        match timeout_handler self with
        | None => (w1, Raise AttributeError)
        | Some th =>
            (after w1 (EvHandle (handler_id th) None (state self)
                       :: map EvEffect (effects (handle th None (state self)))),
             continue_with self (handle th None (state self)))
        end
    | _ :: _ => dispatch_all self msg_list w1
    end.
Proof.
  unfold _initial_behaviour, bind, receive, log, receive_events, emit, ret,
    raise, call, emit_all, lift, after, continue_with.
  simpl.
  destruct (verbose self); simpl;
    destruct (incoming w (received w)) as [|m l]; simpl;
    rewrite <- ?app_assoc; simpl; try reflexivity;
    destruct (timeout_handler self) as [th|]; simpl;
    rewrite <- ?app_assoc; simpl; try reflexivity;
    destruct (outcome (handle th None (state self)));
    rewrite <- ?app_assoc; reflexivity.
Qed.

Lemma invocations_receive_events (self : Actor) (l : list Message) :
  invocations (receive_events self l) = [].
Proof. unfold receive_events. now destruct (verbose self). Qed.



(** C7. For an actor with a timeout configured and a timeout handler [th]
    registered: when [receive()] returns the empty list,
    [_initial_behaviour] does exactly this to the world: the [receive],
    the log line, one entry into [th] through [handle] with message [None]
    and the current state, and the effects of that one call; no message
    handler is entered; and when [th] returns a state, the state of the
    actor is that state, the rest of the actor being as it was. *)
Theorem timeout_invokes_timeout_handler :
  forall (self : Actor) (th : Handler) (w : World),
    timeout self <> None ->
    timeout_handler self = Some th ->
    incoming w (received w) = [] ->
    fst (_initial_behaviour self w)
      = mkWorld (incoming w) (S (received w))
          (trace w
           ++ (EvReceive []
               :: (if verbose self then [EvLog (LogReceived [])] else []))
           ++ EvHandle (handler_id th) None (state self)
              :: map EvEffect (effects (handle th None (state self))))
    /\ invocations (trace (fst (_initial_behaviour self w)))
       = invocations (trace w) ++ [EvHandle (handler_id th) None (state self)]
    /\ snd (_initial_behaviour self w)
       = continue_with self (handle th None (state self))
    /\ (forall s', outcome (handle th None (state self)) = Ok s' ->
        snd (_initial_behaviour self w) = Ok (set_state self s')
        /\ exists self',
             snd (_initial_behaviour self w) = Ok self'
             /\ state self' = s'
             /\ same_configuration self self')
    /\ (forall e, outcome (handle th None (state self)) = Raise e ->
        snd (_initial_behaviour self w) = Raise e).
Proof.
  intros self th w _ Hth Hin.
  rewrite initial_behaviour_unfold. cbv zeta. rewrite Hin, Hth.
  unfold after, receive_events. cbn [fst snd trace].
  split; [now rewrite <- app_assoc|]. split; [|split; [reflexivity|split]].
  - rewrite !invocations_app.
    assert (Hrecv : invocations
                      (EvReceive []
                       :: (if verbose self then [EvLog (LogReceived [])]
                           else [])) = [])
      by now destruct (verbose self).
    rewrite Hrecv, app_nil_r. f_equal.
    change (EvHandle (handler_id th) None (state self)
            :: map EvEffect (effects (handle th None (state self))))
      with ([EvHandle (handler_id th) None (state self)]
            ++ map EvEffect (effects (handle th None (state self)))).
    rewrite invocations_app, invocations_effects. reflexivity.
  - intros s' Hs'. unfold continue_with. rewrite Hs'.
    split; [reflexivity|]. exists (set_state self s').
    split; [reflexivity|]. split; [reflexivity|]. repeat split.
  - intros e He. unfold continue_with. now rewrite He.
Qed.

Lemma timeout_invokes_timeout_handler_witness :
  fst (_initial_behaviour Examples.beating Examples.quiet_world)
    = mkWorld (incoming Examples.quiet_world) 1
        [EvReceive []; EvLog (LogReceived []);
         EvHandle 5 None Examples.st0; EvEffect (Send OKMessage)]
  /\ exists self',
       snd (_initial_behaviour Examples.beating Examples.quiet_world)
         = Ok self'
       /\ state self' = set_behaviour Examples.st0 (OtherBehaviour 1)
       /\ same_configuration Examples.beating self'.
Proof.
  destruct (timeout_invokes_timeout_handler Examples.beating
              Examples.beat_handler Examples.quiet_world
              ltac:(discriminate) eq_refl eq_refl)
    as (Hworld & _ & _ & Hstate & _).
  split; [exact Hworld|].
  exact (proj2 (Hstate (set_behaviour Examples.st0 (OtherBehaviour 1))
                       eq_refl)).
Defined.

(** ** The run loop and termination *)

Lemma kill_process_unfold (self : Actor) (w : World) :
  _kill_process self w = (after w (kill_events self), Ok tt).
Proof.
  unfold _kill_process, terminated_behaviour, log, bind, emit, ret, after,
    kill_events.
  simpl. destruct (verbose self); simpl; rewrite <- !app_assoc; reflexivity.
Qed.

(** With [state.alive] false the loop body is not entered, whatever the
    fuel: [run_loop] is [_kill_process]. *)
Lemma run_loop_dead (other : nat -> Actor -> M Actor) (fuel : nat)
    (self : Actor) (w : World) :
  alive (state self) = false ->
  run_loop other fuel self w = Some (after w (kill_events self), Ok self).
Proof.
  intro H. destruct fuel; simpl; rewrite H; unfold Actor.bind;
    rewrite kill_process_unfold; reflexivity.
Qed.

(** Every execution of the loop that ends without an exception ends with
    the events of [_kill_process], on an actor that is no longer alive. *)
Lemma run_loop_normal_end (other : nat -> Actor -> M Actor) (fuel : nat) :
  forall (self final : Actor) (w wf : World),
    run_loop other fuel self w = Some (wf, Ok final) ->
    alive (state final) = false
    /\ exists w', wf = after w' (kill_events final).
Proof.
  induction fuel as [|fuel IH]; intros self final w wf H.
  - destruct (alive (state self)) eqn:E.
    + simpl in H. rewrite E in H. discriminate.
    + rewrite (run_loop_dead other 0 self w E) in H.
      injection H as <- <-. split; [exact E | now exists w].
  - destruct (alive (state self)) eqn:E.
    + simpl in H. rewrite E in H.
      destruct (behave other self w) as [w1 [self1|e]]; [|discriminate].
      now apply IH in H.
    + rewrite (run_loop_dead other (S fuel) self w E) in H.
      injection H as <- <-. split; [exact E | now exists w].
Qed.

(** An exception raised by the behaviour step leaves the loop and [run]:
    [_kill_process] is not reached. *)
Lemma run_loop_step_raises (other : nat -> Actor -> M Actor) (fuel : nat)
    (self : Actor) (w w' : World) (e : Exn) :
  alive (state self) = true ->
  behave other self w = (w', Raise e) ->
  run_loop other (S fuel) self w = Some (w', Raise e).
Proof. intros Halive Hstep. simpl. now rewrite Halive, Hstep. Qed.

(** C8, as amended. When the behaviour step in which a
    [PoisonPillMessage] (or any other message) was processed returns with
    [state.alive] false, the next test of the loop condition sees it:
    [run] executes no further step, whatever fuel is left, and
    [_kill_process] runs once, adding to the trace one call of
    [terminated_behaviour], then one close of the socket interface, then
    the log line, and nothing else. *)
Theorem run_stops_and_cleans_up_once :
  forall (other : nat -> Actor -> M Actor) (fuel : nat)
         (self self' : Actor) (w w' : World),
    alive (state self) = true ->
    behave other self w = (w', Ok self') ->
    alive (state self') = false ->
    run_loop other (S fuel) self w
      = Some (after w' (kill_events self'), Ok self')
    /\ _kill_process self' w' = (after w' (kill_events self'), Ok tt)
    /\ List.length (List.filter
          (fun e => match e with EvTerminatedBehaviour => true | _ => false end)
          (kill_events self')) = 1
    /\ List.length (List.filter
          (fun e => match e with EvSocketClose => true | _ => false end)
          (kill_events self')) = 1
    /\ invocations (kill_events self') = [].
Proof.
  intros other fuel self self' w w' Halive Hstep Hdead.
  split; [|split; [apply kill_process_unfold|]].
  - simpl. rewrite Halive, Hstep. now apply run_loop_dead.
  - unfold kill_events. destruct (verbose self'); simpl; auto.
Qed.

Lemma run_stops_and_cleans_up_once_witness :
  run Examples.no_other_behaviour 5 Examples.worker Examples.pill_world
  = Some (mkWorld (incoming Examples.pill_world) 1
            [EvSetProcTitle "puller"; EvSocketSetup; EvSignalSetup;
             EvReceive [PoisonPillMessage];
             EvHandleMessage 1 PoisonPillMessage Examples.st0;
             EvTerminatedBehaviour; EvSocketClose],
          Ok (set_state Examples.worker (set_alive Examples.st0 false))).
Proof.
  unfold run. simpl.
  destruct (run_stops_and_cleans_up_once Examples.no_other_behaviour 4
              Examples.worker
              (set_state Examples.worker (set_alive Examples.st0 false))
              (mkWorld (incoming Examples.pill_world) 0
                 [EvSetProcTitle "puller"; EvSocketSetup; EvSignalSetup])
              (mkWorld (incoming Examples.pill_world) 1
                 [EvSetProcTitle "puller"; EvSocketSetup; EvSignalSetup;
                  EvReceive [PoisonPillMessage];
                  EvHandleMessage 1 PoisonPillMessage Examples.st0])
              eq_refl eq_refl eq_refl) as [Hrun _].
  exact Hrun.
Defined.

(** C8 as stated fails: the handler of the poison pill sets [state.alive]
    to false, the next message of the same batch has no handler, and
    [UnknowMessageTypeException] leaves [_initial_behaviour] and [run]
    before the loop condition is tested again; [terminated_behaviour] is
    not called and the socket interface is not closed. *)
Lemma poison_pill_then_unknown_message_skips_cleanup :
  outcome (handle_message Examples.stop_handler PoisonPillMessage
             Examples.st0)
    = Ok (set_alive Examples.st0 false)
  /\ alive (set_alive Examples.st0 false) = false
  /\ run Examples.no_other_behaviour 5 Examples.pill_only
         Examples.pill_then_ok_world
     = Some (mkWorld (incoming Examples.pill_then_ok_world) 1
               [EvSetProcTitle "puller"; EvSocketSetup; EvSignalSetup;
                EvReceive [PoisonPillMessage; OKMessage];
                EvHandleMessage 1 PoisonPillMessage Examples.st0],
             Raise UnknowMessageTypeException).
Proof. repeat split. Qed.

End ActorProperties.

(** ** The start handshake *)

Section StartHandlerProperties.
Import Msg Actor.

Variable initialization : State -> State.

(** Once [state.initialized] is true, every message is answered with the
    error and the state comes back as it was. *)
Lemma handle_initialized (msg : option Message) (s : State) :
  initialized s = true ->
  StartHandler.handle initialization msg s
  = mkReply [SendControl (ErrorMessage "Actor already initialized")] (Ok s).
Proof. intro H. unfold StartHandler.handle. now rewrite H. Qed.

(** The first [StartMessage] on an uninitialized state runs the hook once,
    sets [initialized] and replies [OKMessage]. *)
Lemma handle_first_start (m : Message) (s : State) :
  initialized s = false ->
  isinstance m "StartMessage" = true ->
  StartHandler.handle initialization (Some m) s
  = mkReply [HookCall "initialization"; SendControl OKMessage]
            (Ok (set_initialized (initialization s) true)).
Proof.
  intros H Hm. unfold StartHandler.handle. rewrite H. simpl. now rewrite Hm.
Qed.

(** C2. On a state with [initialized] true, [StartHandler.handle] on a
    [StartMessage] sends [ErrorMessage('Actor already initialized')] on the
    control channel and nothing else, does not enter [initialization], and
    returns the state it was given; hence a second [StartMessage], sent
    after a first one was accepted, is answered with the error, leaves the
    state as the first one made it, and [initialization] has run once over
    the two calls. *)
Theorem second_start_is_rejected :
  forall (s : State) (m : Message),
    initialized s = true ->
    isinstance m "StartMessage" = true ->
    effects (StartHandler.handle initialization (Some m) s)
      = [SendControl (ErrorMessage "Actor already initialized")]
    /\ StartHandler.hook_calls
         (effects (StartHandler.handle initialization (Some m) s)) = 0
    /\ outcome (StartHandler.handle initialization (Some m) s) = Ok s
    /\ (forall (s0 : State) (m1 : Message),
          initialized s0 = false ->
          isinstance m1 "StartMessage" = true ->
          exists s1,
            outcome (StartHandler.handle initialization (Some m1) s0) = Ok s1
            /\ initialized s1 = true
            /\ effects (StartHandler.handle initialization (Some m) s1)
               = [SendControl (ErrorMessage "Actor already initialized")]
            /\ outcome (StartHandler.handle initialization (Some m) s1)
               = Ok s1
            /\ StartHandler.hook_calls
                 (effects (StartHandler.handle initialization (Some m1) s0)
                  ++ effects (StartHandler.handle initialization (Some m) s1))
               = 1).
Proof.
  intros s m Hs Hm.
  rewrite (handle_initialized (Some m) s Hs). simpl.
  repeat split.
  intros s0 m1 Hs0 Hm1.
  exists (set_initialized (initialization s0) true).
  rewrite (handle_first_start m1 s0 Hs0 Hm1).
  rewrite (handle_initialized (Some m)
             (set_initialized (initialization s0) true) eq_refl).
  simpl. repeat split.
Qed.

(** C3, as amended. On a state with [initialized] false, a message that is
    not a [StartMessage] (or no message at all) is ignored:
    [StartHandler.handle] sends nothing, does not enter [initialization]
    and returns the state it was given. *)
Theorem non_start_ignored_when_uninitialized :
  forall (s : State) (msg : option Message),
    initialized s = false ->
    isinstance_opt msg "StartMessage" = false ->
    StartHandler.handle initialization msg s = mkReply [] (Ok s).
Proof.
  intros s msg Hs Hmsg. unfold StartHandler.handle.
  now rewrite Hs, Hmsg.
Qed.

End StartHandlerProperties.

Lemma second_start_is_rejected_witness :
  Actor.effects (StartHandler.handle StartHandler.default_initialization
             (Some Msg.StartMessage) Examples.initialized_state)
    = [Actor.SendControl (Msg.ErrorMessage "Actor already initialized")]
  /\ Actor.outcome (StartHandler.handle StartHandler.default_initialization
                      (Some Msg.StartMessage) Examples.initialized_state)
     = Ok Examples.initialized_state.
Proof.
  destruct (second_start_is_rejected StartHandler.default_initialization
              Examples.initialized_state Msg.StartMessage eq_refl eq_refl)
    as (He & _ & Ho & _).
  split; [exact He | exact Ho].
Defined.

Lemma non_start_ignored_when_uninitialized_witness :
  StartHandler.handle StartHandler.default_initialization
    (Some Msg.OKMessage) Examples.st0
  = Actor.mkReply [] (Ok Examples.st0).
Proof.
  exact (non_start_ignored_when_uninitialized
           StartHandler.default_initialization Examples.st0
           (Some Msg.OKMessage) eq_refl eq_refl).
Defined.

(** C3 as stated fails: on an initialized state a message that is not a
    [StartMessage] is answered with the error on the control channel. *)
Lemma non_start_answered_when_initialized :
  Msg.isinstance_opt (Some Msg.OKMessage) "StartMessage" = false
  /\ StartHandler.handle StartHandler.default_initialization
       (Some Msg.OKMessage) Examples.initialized_state
     = Actor.mkReply
         [Actor.SendControl (Msg.ErrorMessage "Actor already initialized")]
         (Ok Examples.initialized_state)
  /\ ~ (forall (s : Actor.State) (msg : option Msg.Message),
          Msg.isinstance_opt msg "StartMessage" = false ->
          StartHandler.handle StartHandler.default_initialization msg s
          = Actor.mkReply [] (Ok s)).
Proof.
  split; [reflexivity|]. split; [reflexivity|].
  intro H.
  specialize (H Examples.initialized_state (Some Msg.OKMessage) eq_refl).
  discriminate H.
Qed.

(** ** The routing filter *)

Section FilterProperties.

Variables Report ActorAddress : Type.

Lemma route_loop_filter (fs : list ((Report -> bool) * ActorAddress))
    (report : Report) (acc : list ActorAddress) :
  Filter.route_loop fs report acc
  = acc ++ map snd (List.filter (fun f => fst f report) fs).
Proof.
  revert acc. induction fs as [|[rule dispatcher] fs IH]; intro acc; simpl.
  - now rewrite app_nil_r.
  - destruct (rule report); rewrite IH; simpl;
      [now rewrite <- app_assoc | reflexivity].
Qed.

(** With at least one rule, [route] returns the dispatchers of all the
    rules that accept the report, in registration order. *)
Lemma route_with_rules (self : Filter.Filter Report ActorAddress)
    (report : Report) :
  Filter.filters self <> [] ->
  Filter.route self report
  = Ok (map snd (List.filter (fun f => fst f report) (Filter.filters self))).
Proof.
  intro H. unfold Filter.route.
  destruct (Filter.filters self) as [|f fs] eqn:E; [contradiction|].
  now rewrite route_loop_filter.
Qed.

(** C4. A filter on which [filter()] was never called raises, on every
    report, the builtin [RuntimeError], which is not the typed
    [RouterWithoutRuleException] that the module declares for this case. *)
Theorem route_without_rule_raises_runtime_error :
  forall (report : Report),
    Filter.route (@Filter.init Report ActorAddress) report
      = Raise RuntimeError
    /\ Filter.route (@Filter.init Report ActorAddress) report
       <> Raise RouterWithoutRuleException.
Proof.
  intro report. split; [reflexivity | discriminate].
Qed.

End FilterProperties.

(** ** Grouped HWPC reports *)

Section HWPCProperties.
Import HWPC.

Lemma store_update_length (st : Store) (r : ref) (f : MongoDoc -> MongoDoc) :
  List.length (store_update st r f) = List.length st.
Proof.
  revert r. induction st as [|d st IH]; intros [|r]; simpl; auto.
Qed.

Lemma targets_loop_refs (rep : Report) (by_target : list (string * list nat))
    (basics : ref) :
  forall (st : Store) (refs : list ref) (st' : Store) (refs' : list ref),
    targets_loop rep by_target basics st refs = Ok (st', refs') ->
    refs' = refs ++ repeat basics (List.length by_target).
Proof.
  induction by_target as [|[t idx] rest IH]; intros st refs st' refs' H;
    simpl in H.
  - injection H as _ <-. now rewrite app_nil_r.
  - unfold rbind in H.
    destruct (fill_lines rep idx _ basics) as [st1|e]; [|discriminate].
    apply IH in H. subst refs'. simpl. now rewrite <- app_assoc.
Qed.

(** Whatever the order in which the targets are visited, every entry of
    the list that [to_mongodb_dict] returns is the same dictionary. *)
Lemma to_mongodb_dict_over_aliased (self : HWPCReportsGroup)
    (basics : MongoDoc) (by_target : list (string * list nat))
    (out : list (option MongoDoc)) :
  to_mongodb_dict_over self basics by_target = Ok out ->
  exists d, out = repeat d (List.length by_target).
Proof.
  unfold to_mongodb_dict_over. simpl. unfold rbind.
  destruct (targets_loop (report self) by_target 0 [basics] [])
    as [[st refs]|e] eqn:E; [|discriminate].
  intro H. injection H as <-.
  apply targets_loop_refs in E. simpl in E. subst refs. simpl.
  exists (deref st 0). now rewrite map_repeat.
Qed.

(** With one target the single entry holds the mapping of the input. *)
Example to_mongodb_dict_one_target :
  rbind (create_reports_group_from_dicts Examples.two_cores) to_mongodb_dict
  = Ok [Some (mkMongoDoc 10 "s1" [] (Some "t1")
                (Some [("msr", [("0", [("0", [("e1", 3%Z)]);
                                       ("1", [("e1", 5%Z)])])])]))].
Proof. reflexivity. Qed.

(** C5. For the two rows of targets t1 and t2 (same timestamp, sensor,
    group, socket, core and event; values 3 and 5), construction succeeds
    and [to_mongodb_dict] returns two entries that are both the dictionary
    of t2: the mapping of t1, whose event e1 has value 3, is in no entry.
    This does not depend on what the dictionary of basic information
    holds, nor on the order in which the two targets are visited: the two
    entries are always one and the same dictionary. *)
Theorem to_mongodb_dict_two_targets :
  rbind (create_reports_group_from_dicts Examples.two_targets)
        to_mongodb_dict
    = Ok [Some (Examples.doc "t2" 5); Some (Examples.doc "t2" 5)]
  /\ (forall basics : MongoDoc,
        rbind (create_reports_group_from_dicts Examples.two_targets)
              (fun g => to_mongodb_dict_over g basics
                          (groupby_indices String.eqb target (report g)))
        = Ok [Some (Examples.doc_over basics "t2" 5);
              Some (Examples.doc_over basics "t2" 5)]
        /\ Examples.doc_over basics "t1" 3 <> Examples.doc_over basics "t2" 5)
  /\ (forall (basics : MongoDoc) (g : HWPCReportsGroup)
             (by_target : list (string * list nat))
             (out : list (option MongoDoc)),
        create_reports_group_from_dicts Examples.two_targets = Ok g ->
        List.length by_target = 2 ->
        to_mongodb_dict_over g basics by_target = Ok out ->
        exists d, out = [d; d]).
Proof.
  split; [reflexivity|]. split.
  - intro basics. split; [reflexivity|].
    unfold Examples.doc_over, set_doc_groups, set_doc_target. simpl.
    intro H. discriminate H.
  - intros basics g by_target out _ Hlen Hout.
    destruct (to_mongodb_dict_over_aliased g basics by_target out Hout)
      as [d ->].
    exists d. now rewrite Hlen.
Qed.

Lemma to_mongodb_dict_two_targets_witness :
  exists d,
    [Some (Examples.doc "t2" 5); Some (Examples.doc "t2" 5)] = [d; d].
Proof.
  destruct to_mongodb_dict_two_targets as (_ & _ & H).
  exact (H (mkMongoDoc 10 "s1" [] None None)
           (mkGroup 10 "s1" []
              [mkRow "t1" "msr" "0" "0" "e1" 3;
               mkRow "t2" "msr" "0" "0" "e1" 5])
           [("t1", [0]); ("t2", [1])]
           [Some (Examples.doc "t2" 5); Some (Examples.doc "t2" 5)]
           eq_refl eq_refl eq_refl).
Defined.

(** C6. For the grouped report built from the rows of cores 0 and 1 of
    target t1 (values 3 and 5 of event e1, group msr, socket 0),
    construction succeeds, [get_group_events] finds the one event e1 of
    group msr and [compute_group_event_sum] on (msr, t1, 0) returns the
    mapping [{e1: 8}], the sum of the two cores. *)
Theorem group_event_sum_two_cores :
  create_reports_group_from_dicts Examples.two_cores
    = Ok (mkGroup 10 "s1" []
            [mkRow "t1" "msr" "0" "0" "e1" 3;
             mkRow "t1" "msr" "0" "1" "e1" 5])
  /\ rbind (create_reports_group_from_dicts Examples.two_cores)
           (fun g => Ok (get_group_events g "msr"))
     = Ok ["e1"]
  /\ rbind (create_reports_group_from_dicts Examples.two_cores)
           (fun g => Ok (compute_group_event_sum g "msr" "t1" "0"))
     = Ok (Some [("e1", 8%Z)]).
Proof.
  split; [reflexivity|]. split; [reflexivity|].
  unfold create_reports_group_from_dicts. simpl.
  unfold compute_group_event_sum, get_group_events, groupby_sum. simpl.
  reflexivity.
Qed.

(** The sum is an [int64] sum: the largest [int64] plus one is the
    smallest. *)
Example group_event_sum_wraps :
  compute_group_event_sum
    (mkGroup 10 "s1" []
       [mkRow "t1" "msr" "0" "0" "e1" 9223372036854775807;
        mkRow "t1" "msr" "0" "1" "e1" 1])
    "msr" "t1" "0"
  = Some [("e1", (-9223372036854775808)%Z)].
Proof. vm_compute. reflexivity. Qed.

Lemma information_loop_true (todo all : list ReportDict) :
  is_information_in_reports_dict_loop todo all = true ->
  Forall (fun d => rd_groups d <> None) todo
  /\ is_basic_information_in_reports_dict all = true.
Proof.
  induction todo as [|d todo IH]; simpl; intro H.
  - split; [constructor | exact H].
  - destruct (rd_groups d) eqn:E; [|discriminate].
    destruct (IH H) as [Hall Hb]. split; [|exact Hb].
    constructor; [rewrite E; discriminate | exact Hall].
Qed.

Lemma collect_lines_ok (l : list ReportDict) :
  Forall (fun d => rd_groups d <> None) l ->
  Forall (fun d => rd_target d <> None) l ->
  forall acc, exists rows, collect_lines l acc = Ok rows.
Proof.
  induction l as [|d l IH]; intros Hg Ht acc; simpl.
  - now exists acc.
  - inversion Hg as [|? ? Hgd Hgl]; inversion Ht as [|? ? Htd Htl]; subst.
    destruct (rd_groups d); [|contradiction].
    destruct (rd_target d); [|contradiction].
    now apply IH.
Qed.

Lemma basic_information_true (l : list ReportDict) :
  is_basic_information_in_reports_dict l = true ->
  Forall (fun d => rd_timestamp d <> None /\ rd_sensor d <> None
                   /\ rd_target d <> None) l.
Proof.
  unfold is_basic_information_in_reports_dict. rewrite forallb_forall.
  intro H. apply Forall_forall. intros d Hd. specialize (H d Hd).
  destruct (rd_timestamp d), (rd_sensor d), (rd_target d);
    try discriminate; repeat split; discriminate.
Qed.

(** C9. The empty list passes the check of the required keys, so
    [create_reports_group_from_dicts] does not raise
    [BadInputDataException] on it; it raises [IndexError] when it reads
    [reports_dict[0]].  A non-empty list that passes the check is turned
    into a grouped report. *)
Theorem create_from_empty_list_raises_index_error :
  is_information_in_reports_dict [] = true
  /\ create_reports_group_from_dicts [] = Raise IndexError
  /\ create_reports_group_from_dicts [] <> Raise BadInputDataException
  /\ (forall (d : ReportDict) (rest : list ReportDict),
        is_information_in_reports_dict (d :: rest) = true ->
        exists g, create_reports_group_from_dicts (d :: rest) = Ok g).
Proof.
  split; [reflexivity|]. split; [reflexivity|]. split; [discriminate|].
  intros d rest H.
  unfold create_reports_group_from_dicts. rewrite H. cbn [negb].
  destruct (information_loop_true _ _ H) as [Hg Hb].
  apply basic_information_true in Hb.
  assert (Ht : Forall (fun d => rd_target d <> None) (d :: rest)).
  { eapply Forall_impl; [|exact Hb]. intros a (_ & _ & Ha). exact Ha. }
  destruct (collect_lines_ok (d :: rest) Hg Ht []) as [rows ->].
  unfold rbind.
  inversion Hb as [|? ? (Hts & Hsn & _) _]; subst.
  destruct (rd_timestamp d); [|contradiction].
  destruct (rd_sensor d); [|contradiction].
  eexists. reflexivity.
Qed.

Lemma create_from_empty_list_raises_index_error_witness :
  exists g, create_reports_group_from_dicts Examples.two_cores = Ok g.
Proof.
  destruct create_from_empty_list_raises_index_error as (_ & _ & _ & H).
  exact (H (Examples.row "t1" "0" 3) [Examples.row "t1" "1" 5] eq_refl).
Defined.

End HWPCProperties.

(** ** The Mongo report source *)

Section MongoSourceProperties.
Import HWPC MongoSource.

Variable G : Type.
Variable create : list ReportDict -> Result G.

Lemma split_into_concat (docs : list ReportDict)
    (groups : list (list ReportDict)) (rest : list ReportDict) :
  split_into docs groups rest -> docs = List.concat groups ++ rest.
Proof.
  induction 1 as [rest | ts ts' ds next docs groups rest _ _ _ _ _ IH];
    simpl; [reflexivity|].
  now rewrite <- app_assoc, <- IH.
Qed.

Lemma subscribe_loop_spec (cursor : list ReportDict) :
  forall (s : Run G),
    buffer_ok (current_group_dicts s) ->
    exists groups rest gs,
      split_into (buffered (current_group_dicts s) ++ cursor) groups rest
      /\ (buffered (current_group_dicts s) ++ cursor <> [] -> rest <> [])
      /\ on_next (fst (subscribe_loop create cursor s)) = on_next s ++ gs
      /\ built_from create gs groups
      /\ (snd (subscribe_loop create cursor s) = Ok tt ->
          buffered (current_group_dicts (fst (subscribe_loop create cursor s)))
            = rest
          /\ buffer_ok
               (current_group_dicts (fst (subscribe_loop create cursor s)))).
Proof.
  induction cursor as [|d tl IH]; intros s Hs.
  - exists [], (buffered (current_group_dicts s)), []. simpl.
    rewrite !app_nil_r.
    repeat split; try constructor; auto.
  - simpl. destruct (rd_timestamp d) as [ts|] eqn:Ets.
    2:{ exists [], (buffered (current_group_dicts s) ++ d :: tl), []. simpl.
        rewrite app_nil_r.
        repeat split; try constructor; auto; discriminate. }
    destruct (current_group_dicts s) as [cur|] eqn:Ecur.
    + destruct (Z.eqb (cg_timestamp cur) ts) eqn:Eeq.
      * apply Z.eqb_eq in Eeq.
        destruct (IH (mkRun (Some (mkCurrent (cg_timestamp cur)
                                             (cg_dicts cur ++ [d])))
                            (on_next s)))
          as (groups & rest & gs & Hsplit & Hne & Hon & Hb & Hok).
        { simpl. destruct Hs as [_ Hall]. split.
          - intro H. now apply app_eq_nil in H as [_ H].
          - apply Forall_app. split; [exact Hall|].
            constructor; [|constructor]. unfold has_timestamp. now subst. }
        simpl in Hsplit, Hne, Hon. rewrite <- app_assoc in Hsplit, Hne.
        exists groups, rest, gs. simpl. auto.
      * apply Z.eqb_neq in Eeq.
        destruct (create (cg_dicts cur)) as [g|e] eqn:Ecreate.
        -- destruct (IH (mkRun (Some (initialize_current_group_dicts ts d))
                               (on_next s ++ [g])))
             as (groups & rest & gs & Hsplit & Hne & Hon & Hb & Hok).
           { simpl. split; [discriminate|].
             constructor; [exact Ets | constructor]. }
           simpl in Hsplit, Hne, Hon.
           exists (cg_dicts cur :: groups), rest, (g :: gs). simpl.
           destruct Hs as [Hnonempty Hall].
           split; [|split; [|split; [|split]]].
           ++ apply (split_group (cg_timestamp cur) ts); auto.
           ++ intros _. apply Hne. discriminate.
           ++ rewrite Hon, <- app_assoc. reflexivity.
           ++ constructor; [exact Ecreate | exact Hb].
           ++ exact Hok.
        -- exists [], (cg_dicts cur ++ d :: tl), []. simpl.
           rewrite app_nil_r, Ecur.
           repeat split; try constructor; auto; discriminate.
    + destruct (IH (mkRun (Some (initialize_current_group_dicts ts d))
                          (on_next s)))
        as (groups & rest & gs & Hsplit & Hne & Hon & Hb & Hok).
      { simpl. split; [discriminate|].
        constructor; [exact Ets | constructor]. }
      simpl in Hsplit, Hne, Hon.
      exists groups, rest, gs. simpl. auto.
Qed.

(** The loop returns normally when every document has a timestamp and the
    constructor of grouped reports accepts every non-empty group of
    documents of the collection. *)
Lemma subscribe_loop_returns (all cursor : list ReportDict) :
  (forall ds, ds <> [] -> incl ds all -> exists g, create ds = Ok g) ->
  Forall (fun d => rd_timestamp d <> None) cursor ->
  incl cursor all ->
  forall s,
    match current_group_dicts s with
    | Some c => cg_dicts c <> [] /\ incl (cg_dicts c) all
    | None => True
    end ->
    snd (subscribe_loop create cursor s) = Ok tt.
Proof.
  intros Hcreate Hts.
  induction Hts as [|d tl Hd _ IH]; intros Hincl s Hs; simpl;
    [reflexivity|].
  assert (Hd_all : In d all) by (apply Hincl; now left).
  assert (Htl : incl tl all) by (intros x Hx; apply Hincl; now right).
  assert (Hone : incl [d] all) by (intros x [<-|[]]; exact Hd_all).
  destruct (rd_timestamp d) as [ts|]; [|contradiction].
  destruct (current_group_dicts s) as [cur|].
  - destruct Hs as [Hne Hcur].
    destruct (Z.eqb (cg_timestamp cur) ts).
    + apply IH; [exact Htl|]. simpl. split.
      * intro H. now apply app_eq_nil in H as [_ H].
      * now apply incl_app.
    + destruct (Hcreate (cg_dicts cur) Hne Hcur) as [g ->].
      apply IH; [exact Htl|]. simpl. split; [discriminate | exact Hone].
  - apply IH; [exact Htl|]. simpl. split; [discriminate | exact Hone].
Qed.


End MongoSourceProperties.

Section MongoSourceWithHWPC.
Import HWPC.

Lemma information_loop_complete (todo all : list ReportDict) :
  Forall complete todo ->
  is_basic_information_in_reports_dict all = true ->
  is_information_in_reports_dict_loop todo all = true.
Proof.
  induction 1 as [|d todo (_ & _ & _ & Hg) _ IH]; intro Hb; simpl;
    [exact Hb|].
  destruct (rd_groups d); [now apply IH | contradiction].
Qed.

Lemma create_complete (ds : list ReportDict) :
  ds <> [] -> Forall complete ds ->
  exists g, create_reports_group_from_dicts ds = Ok g.
Proof.
  intros Hne Hall.
  assert (Hinfo : is_information_in_reports_dict ds = true).
  { apply information_loop_complete; [exact Hall|].
    unfold is_basic_information_in_reports_dict. apply forallb_forall.
    intros d Hd. rewrite Forall_forall in Hall.
    destruct (Hall d Hd) as (Hts & Hsn & Ht & _).
    destruct (rd_timestamp d), (rd_sensor d), (rd_target d);
      try reflexivity; contradiction. }
  unfold create_reports_group_from_dicts. rewrite Hinfo. cbn [negb].
  assert (Hg : Forall (fun d => rd_groups d <> None) ds)
    by (eapply Forall_impl; [|exact Hall]; intros a (_ & _ & _ & Ha);
        exact Ha).
  assert (Ht : Forall (fun d => rd_target d <> None) ds)
    by (eapply Forall_impl; [|exact Hall]; intros a (_ & _ & Ha & _);
        exact Ha).
  destruct (collect_lines_ok ds Hg Ht []) as [rows ->]. unfold rbind.
  destruct ds as [|d ds]; [contradiction|].
  inversion Hall as [|? ? (Hts & Hsn & _) _]; subst.
  destruct (rd_timestamp d); [|contradiction].
  destruct (rd_sensor d); [|contradiction].
  eexists. reflexivity.
Qed.

End MongoSourceWithHWPC.



(** On the example collection the operator receives the report of the two
    documents of timestamp 10 only; the document of timestamp 11 stays in
    the buffer of the source. *)
Example subscribe_example :
  MongoSource.subscribe HWPC.create_reports_group_from_dicts
    Examples.collection
  = (MongoSource.mkRun
       (Some (MongoSource.mkCurrent 11 [Examples.row_at 11 "t1" "0" 7]))
       [HWPC.mkGroup 10 "s1" []
          [HWPC.mkRow "t1" "msr" "0" "0" "e1" 3;
           HWPC.mkRow "t1" "msr" "0" "1" "e1" 5]],
     Ok tt).
Proof. reflexivity. Qed.

(** * Further properties of the actor runtime *)

Section ActorFurtherProperties.
Import Msg Actor.

Lemma invoked_messages_app (t1 t2 : list Event) :
  invoked_messages (t1 ++ t2) = invoked_messages t1 ++ invoked_messages t2.
Proof. apply flat_map_app. Qed.

Lemma invoked_messages_effects (es : list Effect) :
  invoked_messages (map EvEffect es) = [].
Proof. induction es; simpl; auto. Qed.

Lemma same_configuration_refl (a : Actor) : same_configuration a a.
Proof. repeat split. Qed.

Lemma same_configuration_set_state (a : Actor) (s : State) :
  same_configuration a (set_state a s).
Proof. repeat split. Qed.

Lemma same_configuration_trans (a b c : Actor) :
  same_configuration a b -> same_configuration b c -> same_configuration a c.
Proof.
  intros (H1 & H2 & H3 & H4 & H5) (K1 & K2 & K3 & K4 & K5).
  repeat split; congruence.
Qed.

(** X1. A registration made with [add_handler] never takes a message away
    from an earlier registration: a message that had a handler keeps it;
    a message that had none gets the new handler when it is an instance of
    the new type, and still has none otherwise. *)
Theorem add_handler_never_shadows :
  forall (self : Actor) (ty : class) (h' : Handler) (m : Message),
    get_corresponding_handler (add_handler self ty h') m
    = match get_corresponding_handler self m with
      | Ok h => Ok h
      | Raise e => if isinstance m ty then Ok h' else Raise e
      end.
Proof.
  intros self ty h' m. unfold get_corresponding_handler, add_handler.
  simpl. induction (handlers self) as [|[ty0 h0] hs IH]; simpl.
  - reflexivity.
  - destruct (isinstance m ty0); [reflexivity | exact IH].
Qed.

Lemma dispatch_all_cons (self : Actor) (m : Message) (msgs : list Message)
    (w : World) :
  dispatch_all self (m :: msgs) w
  = match get_corresponding_handler self m with
    | Raise e => (w, Raise e)
    | Ok h =>
        let w1 := after w (EvHandleMessage (handler_id h) m (state self)
                           :: map EvEffect
                                (effects (handle_message h m (state self)))) in
        match outcome (handle_message h m (state self)) with
        | Ok s => dispatch_all (set_state self s) msgs w1
        | Raise e => (w1, Raise e)
        end
    end.
Proof.
  cbn [dispatch_all]. unfold Actor.bind at 1.
  destruct (get_corresponding_handler self m) as [h|e] eqn:Hget.
  - rewrite (dispatch_found self m h w Hget). unfold continue_with.
    cbv zeta.
    now destruct (outcome (handle_message h m (state self))).
  - unfold dispatch, Actor.bind, lift. now rewrite Hget.
Qed.

Lemma invoked_messages_entry (h : Handler) (m : Message) (s : State)
    (es : list Effect) :
  invoked_messages (EvHandleMessage (handler_id h) m s :: map EvEffect es)
  = [m].
Proof.
  change (EvHandleMessage (handler_id h) m s :: map EvEffect es)
    with ([EvHandleMessage (handler_id h) m s] ++ map EvEffect es).
  now rewrite invoked_messages_app, invoked_messages_effects.
Qed.

(** The dispatch loop performs no [receive], only adds to the trace, and
    leaves the handler table and the rest of the configuration of the
    actor as they were. *)
Lemma dispatch_all_world (msgs : list Message) :
  forall (self : Actor) (w : World),
    incoming (fst (dispatch_all self msgs w)) = incoming w
    /\ received (fst (dispatch_all self msgs w)) = received w
    /\ (exists es, trace (fst (dispatch_all self msgs w)) = trace w ++ es)
    /\ (forall self', snd (dispatch_all self msgs w) = Ok self' ->
        same_configuration self self').
Proof.
  induction msgs as [|m msgs IH]; intros self w.
  - simpl. split; [reflexivity|]. split; [reflexivity|]. split.
    + exists []. now rewrite app_nil_r.
    + intros self' H. injection H as <-. apply same_configuration_refl.
  - rewrite dispatch_all_cons.
    destruct (get_corresponding_handler self m) as [h|e].
    + cbv zeta.
      destruct (outcome (handle_message h m (state self))) as [s|e].
      * destruct (IH (set_state self s)
                     (after w (EvHandleMessage (handler_id h) m (state self)
                               :: map EvEffect
                                    (effects (handle_message h m
                                                (state self))))))
          as (Hi & Hr & (es & Ht) & Hcfg).
        cbn [after incoming received trace] in Hi, Hr, Ht.
        split; [exact Hi|]. split; [exact Hr|]. split.
        -- eexists. rewrite Ht, <- app_assoc. reflexivity.
        -- intros self' H.
           eapply same_configuration_trans;
             [apply same_configuration_set_state | exact (Hcfg self' H)].
      * cbn [fst snd after incoming received trace].
        split; [reflexivity|]. split; [reflexivity|]. split.
        -- eexists. reflexivity.
        -- discriminate.
    + cbn [fst snd]. split; [reflexivity|]. split; [reflexivity|]. split.
      * exists []. now rewrite app_nil_r.
      * discriminate.
Qed.

(** X2. The dispatch loop enters the handlers on the messages of the batch
    in arrival order, each message once, and never skips one: what it
    entered is a prefix of the batch, and it is the whole batch when the
    loop ends without an exception. *)
Theorem dispatch_all_in_arrival_order :
  forall (msgs : list Message) (self : Actor) (w : World),
    exists entered rest,
      msgs = entered ++ rest
      /\ invoked_messages (trace (fst (dispatch_all self msgs w)))
         = invoked_messages (trace w) ++ entered
      /\ match snd (dispatch_all self msgs w) with
         | Ok _ => rest = []
         | Raise _ => True
         end.
Proof.
  induction msgs as [|m msgs IH]; intros self w.
  - exists [], []. simpl. split; [reflexivity|].
    split; [now rewrite app_nil_r | reflexivity].
  - rewrite dispatch_all_cons.
    destruct (get_corresponding_handler self m) as [h|e].
    + cbv zeta.
      destruct (outcome (handle_message h m (state self))) as [s|e].
      * destruct (IH (set_state self s)
                     (after w (EvHandleMessage (handler_id h) m (state self)
                               :: map EvEffect
                                    (effects (handle_message h m
                                                (state self))))))
          as (entered & rest & Hm & Hinv & Hres).
        cbn [after trace] in Hinv.
        exists (m :: entered), rest. split; [now rewrite Hm|]. split.
        -- rewrite Hinv, invoked_messages_app, invoked_messages_entry.
           now rewrite <- app_assoc.
        -- exact Hres.
      * cbn [fst snd after trace].
        exists [m], msgs. split; [reflexivity|]. split; [|exact I].
        now rewrite invoked_messages_app, invoked_messages_entry.
    + cbn [fst snd].
      exists [], (m :: msgs). split; [reflexivity|].
      split; [now rewrite app_nil_r | exact I].
Qed.

(** X3. Whatever happens in it, one step of [_initial_behaviour] performs
    exactly one [receive], first of all, and otherwise only adds to the
    trace; when it returns, the handler table, the timeout handler and the
    rest of the configuration of the actor are as they were. *)
Theorem initial_behaviour_one_receive :
  forall (self : Actor) (w : World),
    incoming (fst (_initial_behaviour self w)) = incoming w
    /\ received (fst (_initial_behaviour self w)) = S (received w)
    /\ (exists es, trace (fst (_initial_behaviour self w))
                   = trace w ++ EvReceive (incoming w (received w)) :: es)
    /\ (forall self', snd (_initial_behaviour self w) = Ok self' ->
        same_configuration self self').
Proof.
  intros self w. rewrite initial_behaviour_unfold. cbv zeta.
  unfold receive_events.
  destruct (incoming w (received w)) as [|m l] eqn:Hin.
  - destruct (timeout_handler self) as [th|].
    + unfold after, continue_with. cbn [fst snd incoming received trace].
      split; [reflexivity|]. split; [reflexivity|]. split.
      * eexists. rewrite <- app_assoc. reflexivity.
      * intros self' H.
        destruct (outcome (handle th None (state self))); [|discriminate].
        injection H as <-. apply same_configuration_set_state.
    + cbn [fst snd incoming received trace].
      split; [reflexivity|]. split; [reflexivity|]. split.
      * eexists. reflexivity.
      * discriminate.
  - match goal with
    | |- context [dispatch_all self (m :: l) ?w1] =>
        destruct (dispatch_all_world (m :: l) self w1)
          as (Hi & Hr & (es & Ht) & Hcfg)
    end.
    cbn [incoming received trace] in Hi, Hr, Ht.
    split; [exact Hi|]. split; [exact Hr|]. split; [|exact Hcfg].
    eexists. rewrite Ht, <- app_assoc. reflexivity.
Qed.

Lemma initial_behaviour_one_receive_witness :
  received (fst (_initial_behaviour Examples.ticking Examples.quiet_world))
    = 1
  /\ same_configuration Examples.ticking Examples.ticking.
Proof.
  destruct (initial_behaviour_one_receive Examples.ticking
              Examples.quiet_world) as (_ & Hr & _ & Hcfg).
  split; [exact Hr | exact (Hcfg Examples.ticking eq_refl)].
Defined.

Lemma timeout_handler_add_handlers (self : Actor)
    (regs : list (class * Handler)) :
  timeout_handler (add_handlers self regs) = timeout_handler self.
Proof.
  unfold add_handlers. revert self.
  induction regs as [|r regs IH]; intro self; simpl; [reflexivity|].
  now rewrite IH.
Qed.

(** X4. An actor made by [__init__] and any number of [add_handler] calls
    has no timeout handler: when [receive()] returns the empty list,
    [_initial_behaviour] raises [AttributeError] (the call of [handle] on
    [None]) without entering any handler. *)
Theorem timeout_without_handler_raises :
  forall (name : string) (verbose : bool) (timeout : option nat)
         (st : State) (regs : list (class * Handler)) (w : World),
    incoming w (received w) = [] ->
    snd (_initial_behaviour
           (add_handlers (init name verbose timeout st) regs) w)
      = Raise AttributeError
    /\ invocations
         (trace (fst (_initial_behaviour
                        (add_handlers (init name verbose timeout st) regs)
                        w)))
       = invocations (trace w).
Proof.
  intros name verbose timeout st regs w Hin.
  rewrite initial_behaviour_unfold. cbv zeta.
  rewrite Hin, timeout_handler_add_handlers.
  cbn [init timeout_handler fst snd trace].
  split; [reflexivity|].
  rewrite invocations_app, invocations_receive_events.
  now rewrite app_nil_r.
Qed.

Lemma timeout_without_handler_raises_witness :
  snd (_initial_behaviour Examples.worker Examples.quiet_world)
    = Raise AttributeError
  /\ invocations
       (trace (fst (_initial_behaviour Examples.worker
                                       Examples.quiet_world)))
     = invocations (trace Examples.quiet_world).
Proof.
  exact (timeout_without_handler_raises "puller" false (Some 100)
           Examples.st0
           [("PoisonPillMessage", Examples.stop_handler);
            ("object", Examples.catch_all)]
           Examples.quiet_world eq_refl).
Defined.

Lemma setup_unfold (self : Actor) (w : World) :
  exists es, setup self w = (after w es, Ok tt).
Proof.
  unfold setup, log, Actor.bind, emit, ret, after. simpl.
  destruct (verbose self); simpl; eexists;
    rewrite <- !app_assoc; reflexivity.
Qed.

(** X5. Every execution of [run] that ends without an exception leaves an
    actor whose [state.alive] is false and a trace whose last events are
    those of [_kill_process]: one call of [terminated_behaviour], one
    close of the socket interface, the log line. *)
Theorem run_normal_end :
  forall (other : nat -> Actor -> M Actor) (fuel : nat)
         (self final : Actor) (w wf : World),
    run other fuel self w = Some (wf, Ok final) ->
    alive (state final) = false
    /\ exists w', wf = after w' (kill_events final).
Proof.
  intros other fuel self final w wf H. unfold run in H.
  destruct (setup_unfold self w) as [es Hs]. rewrite Hs in H.
  exact (run_loop_normal_end other fuel self final _ wf H).
Qed.

Lemma run_normal_end_witness :
  alive (state Examples.stopped_worker) = false
  /\ exists w', Examples.stopped_world
                = after w' (kill_events Examples.stopped_worker).
Proof.
  exact (run_normal_end Examples.no_other_behaviour 5 Examples.worker
           Examples.stopped_worker Examples.pill_world
           Examples.stopped_world eq_refl).
Defined.

(** X6. Every execution of the [while] loop of [run] that ends with an
    exception ends in this way: the loop arrived, by behaviour steps that
    returned, at an actor that was alive; the step taken on that actor
    raised the exception; and the world at the end is exactly the one this
    step left.  Nothing runs after the step: [_kill_process] is not
    executed. *)
Theorem run_loop_exception_skips_cleanup :
  forall (other : nat -> Actor -> M Actor) (fuel : nat)
         (self : Actor) (w wf : World) (e : Exn),
    run_loop other fuel self w = Some (wf, Raise e) ->
    exists (a : Actor) (w0 : World),
      reaches other self w a w0
      /\ alive (state a) = true
      /\ behave other a w0 = (wf, Raise e).
Proof.
  intros other fuel.
  induction fuel as [|fuel IH]; intros self w wf e H.
  - destruct (alive (state self)) eqn:E.
    + simpl in H. rewrite E in H. discriminate.
    + rewrite (run_loop_dead other 0 self w E) in H. discriminate.
  - destruct (alive (state self)) eqn:E.
    + simpl in H. rewrite E in H.
      destruct (behave other self w) as [w1 [self1|e1]] eqn:Hstep.
      * destruct (IH self1 w1 wf e H) as (a & w0 & Hreach & Ha & Hb).
        exists a, w0. split; [|split; [exact Ha | exact Hb]].
        exact (reaches_step other self self1 a w w1 w0 E Hstep Hreach).
      * injection H as <- <-. exists self, w.
        split; [apply reaches_here | split; [exact E | exact Hstep]].
    + rewrite (run_loop_dead other (S fuel) self w E) in H. discriminate.
Qed.

Lemma run_loop_exception_skips_cleanup_witness :
  exists (a : Actor) (w0 : World),
    reaches Examples.no_other_behaviour Examples.pill_only
            Examples.pill_then_ok_world a w0
    /\ alive (state a) = true
    /\ behave Examples.no_other_behaviour a w0
       = (mkWorld (incoming Examples.pill_then_ok_world) 1
            [EvReceive [PoisonPillMessage; OKMessage];
             EvHandleMessage 1 PoisonPillMessage Examples.st0],
          Raise UnknowMessageTypeException).
Proof.
  exact (run_loop_exception_skips_cleanup Examples.no_other_behaviour 5
           Examples.pill_only Examples.pill_then_ok_world _ _ eq_refl).
Defined.

End ActorFurtherProperties.

(** * Further properties of the start handshake *)

Section StartHandlerFurtherProperties.
Import Msg Actor.

Variable initialization : State -> State.

Lemma hook_calls_app (es1 es2 : list Effect) :
  StartHandler.hook_calls (es1 ++ es2)
  = StartHandler.hook_calls es1 + StartHandler.hook_calls es2.
Proof.
  unfold StartHandler.hook_calls. now rewrite filter_app, length_app.
Qed.

Lemma ok_replies_app (es1 es2 : list Effect) :
  StartHandler.ok_replies (es1 ++ es2)
  = StartHandler.ok_replies es1 + StartHandler.ok_replies es2.
Proof.
  unfold StartHandler.ok_replies. now rewrite filter_app, length_app.
Qed.

(** X7. Over any sequence of messages passed one after the other to
    [StartHandler.handle], [initialization] runs once if the state was not
    initialized and the sequence contains a [StartMessage], and not at all
    otherwise; [OKMessage] is sent as many times; and the state ends up
    initialized exactly when it was so before or a [StartMessage] came. *)
Theorem start_handled_at_most_once :
  forall (msgs : list (option Message)) (s : State),
    StartHandler.hook_calls
      (fst (StartHandler.handle_all initialization msgs s))
    = (if negb (initialized s)
          && existsb (fun m => isinstance_opt m "StartMessage") msgs
       then 1 else 0)
    /\ StartHandler.ok_replies
         (fst (StartHandler.handle_all initialization msgs s))
       = StartHandler.hook_calls
           (fst (StartHandler.handle_all initialization msgs s))
    /\ initialized (snd (StartHandler.handle_all initialization msgs s))
       = initialized s
         || existsb (fun m => isinstance_opt m "StartMessage") msgs.
Proof.
  induction msgs as [|m msgs IH]; intro s.
  - simpl. rewrite andb_false_r, orb_false_r. repeat split.
  - cbn [StartHandler.handle_all existsb]. unfold StartHandler.handle.
    destruct (initialized s) eqn:Hs.
    + cbn [outcome effects fst snd negb andb orb].
      destruct (IH s) as (Hh & Ho & Hi). rewrite Hs in Hh, Hi.
      cbn [negb andb orb] in Hh, Hi.
      rewrite hook_calls_app, ok_replies_app, Hh, Ho, Hh, Hi.
      repeat split.
    + destruct (isinstance_opt m "StartMessage") eqn:Hm;
        cbn [negb outcome effects fst snd andb orb].
      * destruct (IH (set_initialized (initialization s) true))
          as (Hh & Ho & Hi).
        cbn [set_initialized initialized negb andb orb] in Hh, Hi.
        rewrite hook_calls_app, ok_replies_app, Hh, Ho, Hh, Hi.
        repeat split.
      * destruct (IH s) as (Hh & Ho & Hi). rewrite Hs in Hh, Hi.
        cbn [negb andb orb] in Hh, Hi. cbn [app].
        rewrite Hh, Ho, Hh, Hi. repeat split.
Qed.

End StartHandlerFurtherProperties.

(** * Further properties of the routing filter *)

Section FilterFurtherProperties.

Variables Report ActorAddress : Type.

(** X8. With at least one rule registered, [route] raises nothing and
    returns the dispatchers of exactly the rules that accept the report,
    each as many times as it was registered with an accepting rule, in
    registration order; the list is empty when no rule accepts. *)
Theorem route_returns_accepting_dispatchers :
  forall (self : Filter.Filter Report ActorAddress) (report : Report),
    Filter.filters self <> [] ->
    Filter.route self report
    = Ok (map snd (List.filter (fun f => fst f report)
                               (Filter.filters self))).
Proof.
  intros self report H. unfold Filter.route.
  destruct (Filter.filters self) as [|f fs] eqn:E; [contradiction|].
  now rewrite route_loop_filter.
Qed.

(** X9. After a call of [filter], [route] never raises: it returns what it
    returned before the call (nothing, if it raised for want of a rule),
    followed by the new dispatcher when the new rule accepts the
    report. *)
Theorem route_after_filter :
  forall (self : Filter.Filter Report ActorAddress)
         (rule : Report -> bool) (dispatcher : ActorAddress)
         (report : Report),
    Filter.route (Filter.filter self rule dispatcher) report
    = Ok (match Filter.route self report with
          | Ok dispatchers => dispatchers
          | Raise _ => []
          end ++ (if rule report then [dispatcher] else [])).
Proof.
  intros self rule dispatcher report.
  unfold Filter.route, Filter.filter. cbn [Filter.filters].
  destruct (Filter.filters self) as [|f fs] eqn:E.
  - cbn [app Filter.route_loop]. now destruct (rule report).
  - cbn [app]. rewrite !route_loop_filter. cbn [app].
    change (f :: fs ++ [(rule, dispatcher)])
      with ((f :: fs) ++ [(rule, dispatcher)]).
    rewrite filter_app, map_app. cbn [List.filter fst snd map].
    now destruct (rule report).
Qed.

End FilterFurtherProperties.

Lemma route_returns_accepting_dispatchers_witness :
  Filter.route Examples.parity_filter 12%Z = Ok [1; 2].
Proof.
  exact (route_returns_accepting_dispatchers Z nat Examples.parity_filter
           12%Z ltac:(discriminate)).
Defined.

(** * Further properties of the grouped HWPC reports *)

(** ** Grouping *)

Section GroupByFacts.
Import HWPC.

Context {K : Type} (eqb : K -> K -> bool) (key : Row -> K).
Hypothesis eqb_eq : forall a b, eqb a b = true <-> a = b.

Lemma eqb_refl (a : K) : eqb a a = true.
Proof. now apply eqb_eq. Qed.

Lemma find_group_add_index (k k' : K) (i : nat) (gs : list (K * list nat)) :
  find_group eqb k (add_index eqb k' i gs)
  = if eqb k k'
    then Some (match find_group eqb k' gs with
               | Some idx => idx ++ [i]
               | None => [i]
               end)
    else find_group eqb k gs.
Proof.
  induction gs as [|[k0 idx] gs IH]; simpl.
  - reflexivity.
  - destruct (eqb k' k0) eqn:E0; simpl.
    + apply eqb_eq in E0. subst k0.
      destruct (eqb k k') eqn:E; [|reflexivity].
      reflexivity.
    + destruct (eqb k k0) eqn:E1.
      * apply eqb_eq in E1. subst k0.
        destruct (eqb k k') eqn:E; [|reflexivity].
        apply eqb_eq in E. subst k'. rewrite eqb_refl in E0. discriminate.
      * exact IH.
Qed.

Lemma find_group_groupby_from (k : K) (rows : list Row) :
  forall (i : nat) (gs : list (K * list nat)),
    find_group eqb k (groupby_from eqb key rows i gs)
    = match positions eqb key k rows i with
      | [] => find_group eqb k gs
      | p => Some (match find_group eqb k gs with
                   | Some idx => idx
                   | None => []
                   end ++ p)
      end.
Proof.
  induction rows as [|r rows IH]; intros i gs; simpl.
  - reflexivity.
  - rewrite IH, find_group_add_index.
    destruct (eqb k (key r)) eqn:E.
    + apply eqb_eq in E. subst k.
      destruct (positions eqb key (key r) rows (S i)) as [|j p];
        destruct (find_group eqb (key r) gs) as [idx|]; simpl;
        rewrite <- ?app_assoc; reflexivity.
    + reflexivity.
Qed.

(** The indices recorded for a key are the positions of its lines. *)
Lemma find_group_groupby_indices (k : K) (rows : list Row) :
  find_group eqb k (groupby_indices eqb key rows)
  = match positions eqb key k rows 0 with
    | [] => None
    | p => Some p
    end.
Proof.
  unfold groupby_indices. rewrite find_group_groupby_from. simpl.
  now destruct (positions eqb key k rows 0).
Qed.

Lemma positions_lines (k : K) (rows : list Row) :
  forall (pre : list Row),
    map (nth_error (pre ++ rows))
        (positions eqb key k rows (List.length pre))
    = map Some (lines_where eqb key k rows).
Proof.
  unfold lines_where.
  induction rows as [|r rows IH]; intro pre; simpl; [reflexivity|].
  assert (Hpre : pre ++ r :: rows = (pre ++ [r]) ++ rows)
    by now rewrite <- app_assoc.
  assert (Hlen : S (List.length pre) = List.length (pre ++ [r]))
    by (rewrite length_app; simpl; lia).
  destruct (eqb k (key r)); simpl.
  - f_equal.
    + rewrite nth_error_app2 by lia. now rewrite Nat.sub_diag.
    + rewrite Hpre, Hlen. apply IH.
  - rewrite Hpre, Hlen. apply IH.
Qed.

Lemma positions_nil_iff (k : K) (rows : list Row) (i : nat) :
  positions eqb key k rows i = [] <-> lines_where eqb key k rows = [].
Proof.
  unfold lines_where. revert i.
  induction rows as [|r rows IH]; intro i; simpl; [tauto|].
  destruct (eqb k (key r)); [split; discriminate | apply IH].
Qed.

Lemma find_group_in (k : K) (gs : list (K * list nat)) :
  In k (map fst gs) <-> find_group eqb k gs <> None.
Proof.
  induction gs as [|[k0 idx] gs IH]; simpl.
  - split; [tauto | congruence].
  - destruct (eqb k k0) eqn:E.
    + apply eqb_eq in E. split; [discriminate | auto].
    + split.
      * intros [H|H]; [|now apply IH].
        subst k0. rewrite eqb_refl in E. discriminate.
      * intro H. right. now apply IH.
Qed.

(** The keys of the grouping are the keys of the lines. *)
Lemma groupby_keys (k : K) (rows : list Row) :
  In k (map fst (groupby_indices eqb key rows))
  <-> exists r, In r rows /\ key r = k.
Proof.
  rewrite find_group_in, find_group_groupby_indices.
  split.
  - intro Hne.
    destruct (lines_where eqb key k rows) as [|r l] eqn:E.
    + apply (positions_nil_iff k rows 0) in E. rewrite E in Hne. congruence.
    + assert (Hin : In r (lines_where eqb key k rows))
        by (rewrite E; now left).
      unfold lines_where in Hin. apply filter_In in Hin as [Hin Hk].
      apply eqb_eq in Hk. now exists r.
  - intros (r & Hin & Hk).
    destruct (positions eqb key k rows 0) eqn:E; [|discriminate].
    apply (positions_nil_iff k rows 0) in E.
    assert (Hin' : In r (lines_where eqb key k rows)).
    { unfold lines_where. apply filter_In. split; [exact Hin|].
      apply eqb_eq. now symmetry. }
    rewrite E in Hin'. destruct Hin'.
Qed.

Lemma lookup_groupby_sum (k : K) (rows : list Row) :
  lookup eqb k (groupby_sum eqb key rows)
  = match lines_where eqb key k rows with
    | [] => None
    | _ => Some (sum_where eqb key k rows)
    end.
Proof.
  unfold groupby_sum.
  assert (Hmap : forall gs f,
             lookup eqb k (map (fun g : K * list nat => (fst g, f (snd g))) gs)
             = option_map f (find_group eqb k gs)).
  { intros gs f. induction gs as [|[k0 idx] gs IH]; simpl; [reflexivity|].
    destruct (eqb k k0); [reflexivity | exact IH]. }
  rewrite (Hmap (groupby_indices eqb key rows)
             (fun idx =>
                wrap_int64
                  (fold_left Z.add
                     (map (fun i => match nth_error rows i with
                                    | Some r => event_value r
                                    | None => 0%Z
                                    end) idx) 0%Z))).
  rewrite find_group_groupby_indices.
  pose proof (positions_lines k rows []) as Hp. simpl in Hp.
  destruct (positions eqb key k rows 0) as [|i p] eqn:E.
  - apply (positions_nil_iff k rows 0) in E. now rewrite E.
  - destruct (lines_where eqb key k rows) as [|r l] eqn:El.
    + apply (positions_nil_iff k rows 0) in El. congruence.
    + cbn [option_map]. f_equal. unfold sum_where. rewrite El.
      do 2 f_equal.
      assert (Hval : forall (idx : list nat) (ls : list Row),
                 map (nth_error rows) idx = map Some ls ->
                 map (fun i => match nth_error rows i with
                               | Some r => event_value r
                               | None => 0%Z
                               end) idx
                 = map event_value ls).
      { induction idx as [|j idx IH]; intros [|x ls] H; simpl in *;
          try discriminate; [reflexivity|].
        injection H as Hj Hrest. rewrite Hj. f_equal. now apply IH. }
      now apply Hval.
Qed.

End GroupByFacts.

(** ** Queries *)

Section HWPCQueries.
Import HWPC.

Lemma key2_eqb_eq (a b : string * string) : key2_eqb a b = true <-> a = b.
Proof.
  destruct a as [a1 a2], b as [b1 b2]. unfold key2_eqb. simpl.
  rewrite andb_true_iff, !String.eqb_eq. split.
  - now intros [-> ->].
  - intro H. injection H as -> ->. auto.
Qed.

Lemma key3_eqb_eq (a b : string * string * string) :
  key3_eqb a b = true <-> a = b.
Proof.
  destruct a as [[a1 a2] a3], b as [[b1 b2] b3]. unfold key3_eqb.
  rewrite !andb_true_iff, !String.eqb_eq. split.
  - now intros [[-> ->] ->].
  - intro H. injection H as -> -> ->. auto.
Qed.

Lemma key4_eqb_eq (a b : string * string * string * string) :
  key4_eqb a b = true <-> a = b.
Proof.
  destruct a as [[[a1 a2] a3] a4], b as [[[b1 b2] b3] b4]. unfold key4_eqb.
  rewrite !andb_true_iff, !String.eqb_eq. split.
  - now intros [[[-> ->] ->] ->].
  - intro H. injection H as -> -> -> ->. auto.
Qed.

Lemma key5_eqb_eq (a b : string * string * string * string * string) :
  key5_eqb a b = true <-> a = b.
Proof.
  destruct a as [[[[a1 a2] a3] a4] a5], b as [[[[b1 b2] b3] b4] b5].
  unfold key5_eqb.
  rewrite !andb_true_iff, !String.eqb_eq. split.
  - now intros [[[[-> ->] ->] ->] ->].
  - intro H. injection H as -> -> -> -> ->. auto.
Qed.

Lemma dict_get_set {V} (d : Dict V) (k k' : string) (v : V) :
  dict_get (dict_set d k v) k'
  = if String.eqb k' k then Some v else dict_get d k'.
Proof.
  induction d as [|[k0 v0] d IH]; simpl.
  - reflexivity.
  - destruct (String.eqb k k0) eqn:E; simpl.
    + apply String.eqb_eq in E. subst k0.
      now destruct (String.eqb k' k).
    + destruct (String.eqb k' k0) eqn:E'.
      * apply String.eqb_eq in E'. subst k0.
        destruct (String.eqb k' k) eqn:E''; [|reflexivity].
        apply String.eqb_eq in E''. subst k'.
        rewrite String.eqb_refl in E. discriminate.
      * exact IH.
Qed.

(** X10. [get_group_events] returns the names of the events of the lines
    whose group is [group] and, because the test is membership in the pair
    (group name, event name), also the events that bear the name [group]
    themselves, in whatever group they are; it returns nothing else. *)
Theorem get_group_events_spec :
  forall (self : HWPCReportsGroup) (group event : string),
    In event (get_group_events self group)
    <-> exists r, In r (report self) /\ event_id r = event
                  /\ (groups r = group \/ event_id r = group).
Proof.
  intros self group event. unfold get_group_events.
  rewrite in_flat_map. split.
  - intros ([g e] & Hk & Hin).
    apply (groupby_keys key2_eqb (fun r => (groups r, event_id r))
             key2_eqb_eq) in Hk.
    destruct Hk as (r & Hr & Hkey). injection Hkey as Hg He.
    cbn [fst snd] in Hin.
    destruct (String.eqb group g || String.eqb group e) eqn:E;
      [|destruct Hin].
    destruct Hin as [<-|[]].
    exists r. split; [exact Hr|]. split; [exact He|].
    apply orb_true_iff in E. rewrite !String.eqb_eq in E.
    destruct E as [->| ->]; [left | right]; congruence.
  - intros (r & Hr & He & Hg).
    exists (groups r, event_id r). split.
    + apply (groupby_keys key2_eqb (fun r => (groups r, event_id r))
               key2_eqb_eq).
      now exists r.
    + cbn [fst snd].
      assert (E : String.eqb group (groups r)
                  || String.eqb group (event_id r) = true).
      { apply orb_true_iff. rewrite !String.eqb_eq.
        destruct Hg as [Hg|Hg]; [left | right]; congruence. }
      rewrite E. now left.
Qed.

Lemma sum_events_spec (sums : list (string * string * string * string * Z))
    (target group socket : string) (events : list string) :
  forall (acc : Dict Z),
    match sum_events sums target group socket events acc with
    | Some d =>
        (forall e, In e events ->
           lookup key4_eqb (target, group, socket, e) sums <> None
           /\ dict_get d e = lookup key4_eqb (target, group, socket, e) sums)
        /\ (forall e, ~ In e events -> dict_get d e = dict_get acc e)
    | None =>
        exists e, In e events
                  /\ lookup key4_eqb (target, group, socket, e) sums = None
    end.
Proof.
  induction events as [|ev events IH]; intro acc; simpl.
  - split; [intros e [] | reflexivity].
  - destruct (lookup key4_eqb (target, group, socket, ev) sums)
      as [v|] eqn:Hl.
    + specialize (IH (dict_set acc ev v)).
      destruct (sum_events sums target group socket events
                           (dict_set acc ev v)) as [d|].
      * destruct IH as [Hin Hout]. split.
        -- intros e [<-|He].
           ++ split; [congruence|].
              destruct (in_dec string_dec ev events) as [Hi|Hn].
              ** destruct (Hin ev Hi) as [_ ->]. reflexivity.
              ** rewrite (Hout ev Hn), dict_get_set, String.eqb_refl.
                 now rewrite Hl.
           ++ now apply Hin.
        -- intros e Hn.
           assert (He : e <> ev) by (intro; subst; apply Hn; now left).
           rewrite Hout by (intro; apply Hn; now right).
           rewrite dict_get_set.
           destruct (String.eqb e ev) eqn:E; [|reflexivity].
           apply String.eqb_eq in E. contradiction.
      * destruct IH as (e & He & Hnone). exists e. auto.
    + exists ev. auto.
Qed.

(** X11. On a report whose values fit an [int64]: when
    [compute_group_event_sum] returns a dictionary, the group has events,
    every event of the group has lines for the given target and socket,
    the dictionary maps each of them to the [int64] sum of the values of
    these lines (over all cores; the sum wraps around) and it has no other
    key.  It returns [None] only when the group has no event or when some
    event of the group has no line for the target and socket: a sum is
    never given for part of the events. *)
Theorem compute_group_event_sum_spec :
  forall (self : HWPCReportsGroup) (group target socket : string),
    Forall (fun r => in_int64 (event_value r)) (report self) ->
    match compute_group_event_sum self group target socket with
    | Some d =>
        get_group_events self group <> []
        /\ (forall e, In e (get_group_events self group) ->
              lines_where key4_eqb key4 (target, group, socket, e)
                          (report self) <> []
              /\ dict_get d e
                 = Some (wrap_int64
                           (fold_left Z.add
                              (map event_value
                                 (lines_where key4_eqb key4
                                    (target, group, socket, e)
                                    (report self)))
                              0%Z)))
        /\ (forall e, ~ In e (get_group_events self group) ->
              dict_get d e = None)
    | None =>
        get_group_events self group = []
        \/ exists e, In e (get_group_events self group)
                     /\ lines_where key4_eqb key4
                          (target, group, socket, e) (report self) = []
    end.
Proof.
  intros self group target socket _. unfold compute_group_event_sum.
  destruct (get_group_events self group) as [|e0 es] eqn:Hev.
  - simpl. now left.
  - cbn [List.length Nat.ltb Nat.leb].
    pose proof (sum_events_spec
                  (groupby_sum key4_eqb key4 (report self))
                  target group socket (e0 :: es) []) as H.
    fold key4.
    destruct (sum_events (groupby_sum key4_eqb key4 (report self))
                         target group socket (e0 :: es) []) as [d|].
    + destruct H as [Hin Hout]. split; [discriminate|]. split.
      * intros e He. destruct (Hin e He) as [Hne Hget].
        rewrite (lookup_groupby_sum key4_eqb key4 key4_eqb_eq) in Hne, Hget.
        unfold sum_where in Hget.
        destruct (lines_where key4_eqb key4 (target, group, socket, e)
                              (report self)); [congruence|].
        split; [discriminate | exact Hget].
      * intros e He. now rewrite (Hout e He).
    + right. destruct H as (e & He & Hnone). exists e. split; [exact He|].
      rewrite (lookup_groupby_sum key4_eqb key4 key4_eqb_eq) in Hnone.
      now destruct (lines_where key4_eqb key4 (target, group, socket, e)
                                (report self)).
Qed.

Lemma compute_group_event_sum_spec_witness :
  dict_get [("e1", (-9223372036854775808)%Z)] "e1"
  = Some (wrap_int64
            (fold_left Z.add
               (map event_value
                  (lines_where key4_eqb key4 ("t1", "msr", "0", "e1")
                     [mkRow "t1" "msr" "0" "0" "e1" 9223372036854775807;
                      mkRow "t1" "msr" "0" "1" "e1" 1]))
               0%Z)).
Proof.
  assert (Hrange : Forall (fun r => in_int64 (event_value r))
                     [mkRow "t1" "msr" "0" "0" "e1" 9223372036854775807;
                      mkRow "t1" "msr" "0" "1" "e1" 1]).
  { repeat constructor; unfold in_int64; simpl; lia. }
  pose proof (compute_group_event_sum_spec
                (mkGroup 10 "s1" []
                   [mkRow "t1" "msr" "0" "0" "e1" 9223372036854775807;
                    mkRow "t1" "msr" "0" "1" "e1" 1])
                "msr" "t1" "0" Hrange) as H.
  change (compute_group_event_sum
            (mkGroup 10 "s1" []
               [mkRow "t1" "msr" "0" "0" "e1" 9223372036854775807;
                mkRow "t1" "msr" "0" "1" "e1" 1]) "msr" "t1" "0")
    with (Some [("e1", (-9223372036854775808)%Z)]) in H.
  destruct H as (_ & Hin & _).
  exact (proj2 (Hin "e1" (or_introl eq_refl))).
Defined.

Lemma find_hd_filter {A} (f : A -> bool) (l : list A) :
  find f l = hd_error (List.filter f l).
Proof.
  induction l as [|a l IH]; simpl; [reflexivity|].
  now destruct (f a).
Qed.

(** The first index recorded for a key is the position of the first line
    that carries it. *)
Lemma first_index_find {K : Type} (eqb : K -> K -> bool) (key : Row -> K)
    (eqb_eq : forall a b, eqb a b = true <-> a = b) (k : K)
    (rows : list Row) :
  match find_group eqb k (groupby_indices eqb key rows) with
  | None => find (fun r => eqb k (key r)) rows = None
  | Some [] => False
  | Some (i :: _) =>
      nth_error rows i <> None
      /\ nth_error rows i = find (fun r => eqb k (key r)) rows
  end.
Proof.
  rewrite (find_group_groupby_indices eqb key eqb_eq), find_hd_filter.
  pose proof (positions_lines eqb key k rows []) as Hp. simpl in Hp.
  unfold lines_where in Hp.
  destruct (positions eqb key k rows 0) as [|i p] eqn:E.
  - apply (positions_nil_iff eqb key k rows 0) in E.
    unfold lines_where in E. now rewrite E.
  - destruct (List.filter (fun r => eqb k (key r)) rows) as [|r l];
      [discriminate|].
    simpl in Hp. injection Hp as Hi _. rewrite Hi. simpl.
    split; [discriminate | reflexivity].
Qed.

Lemma get_event_value_find (self : HWPCReportsGroup)
    (target group socket core event_name : string) :
  get_event_value self target group socket core event_name
  = Ok (option_map event_value
          (find (fun r => key5_eqb (target, group, socket, core, event_name)
                                   (key5 r))
                (report self))).
Proof.
  unfold get_event_value.
  pose proof (first_index_find key5_eqb key5 key5_eqb_eq
                (target, group, socket, core, event_name) (report self))
    as H.
  destruct (find_group key5_eqb (target, group, socket, core, event_name)
              (groupby_indices key5_eqb key5 (report self)))
    as [[|i idx]|].
  - destruct H.
  - destruct H as [Hne Hfind]. rewrite <- Hfind.
    now destruct (nth_error (report self) i).
  - now rewrite H.
Qed.

(** X12. Neither lookup ever raises.  [get_event_value] returns the value
    of the first line that carries the target, group, socket, core and
    event asked for, and [None] when there is no such line.
    [get_event_value_first_found_core] looks the event up on the core of
    the first line of the target, group and socket, and on that core only:
    it returns [None] when that core has no such event, whatever the other
    cores have. *)
Theorem event_value_lookups :
  forall (self : HWPCReportsGroup) (target group socket core event : string),
    get_event_value self target group socket core event
    = Ok (option_map event_value
            (find (fun r => key5_eqb (target, group, socket, core, event)
                                     (key5 r))
                  (report self)))
    /\ get_event_value_first_found_core self target group socket event
       = Ok (match find (fun r => key3_eqb (target, group, socket) (key3 r))
                        (report self) with
             | None => None
             | Some first =>
                 option_map event_value
                   (find (fun r => key5_eqb
                                     (target, group, socket, core_id first,
                                      event) (key5 r))
                         (report self))
             end).
Proof.
  intros self target group socket core event.
  split; [apply get_event_value_find|].
  unfold get_event_value_first_found_core.
  pose proof (first_index_find key3_eqb key3 key3_eqb_eq
                (target, group, socket) (report self)) as H.
  destruct (find_group key3_eqb (target, group, socket)
              (groupby_indices key3_eqb key3 (report self)))
    as [[|i idx]|].
  - destruct H.
  - destruct H as [Hne Hfind]. rewrite <- Hfind.
    destruct (nth_error (report self) i) as [row|]; [|congruence].
    apply get_event_value_find.
  - now rewrite H.
Qed.

End HWPCQueries.

(** ** Construction *)

Section HWPCConstruction.
Import HWPC.

Lemma information_loop_missing_groups (todo all : list ReportDict) :
  (exists d, In d todo /\ rd_groups d = None) ->
  is_information_in_reports_dict_loop todo all = false.
Proof.
  induction todo as [|d0 todo IH]; intros (d & Hin & Hd); simpl.
  - destruct Hin.
  - destruct (rd_groups d0) eqn:E; [|reflexivity].
    apply IH. destruct Hin as [->|Hin]; [congruence|]. now exists d.
Qed.

(** X13. When one of the input dictionaries has no groups key,
    [create_reports_group_from_dicts] raises [BadInputDataException],
    wherever the dictionary stands in the list and whatever the others
    hold; no grouped report is built. *)
Theorem create_without_groups_raises :
  forall (reports_dict : list ReportDict),
    (exists d, In d reports_dict /\ rd_groups d = None) ->
    create_reports_group_from_dicts reports_dict
    = Raise BadInputDataException.
Proof.
  intros reports_dict H. unfold create_reports_group_from_dicts,
    is_information_in_reports_dict.
  now rewrite (information_loop_missing_groups _ _ H).
Qed.

Lemma create_without_groups_raises_witness :
  create_reports_group_from_dicts
    [Examples.row "t1" "0" 3;
     mkReportDict (Some 10%Z) (Some "s1") (Some "t2") None None]
  = Raise BadInputDataException.
Proof.
  apply create_without_groups_raises.
  exists (mkReportDict (Some 10%Z) (Some "s1") (Some "t2") None None).
  split; [right; now left | reflexivity].
Defined.

Lemma in_lines_of (t : string) (g : Groups) (row : Row) :
  In row (lines_of t g)
  <-> target row = t
      /\ has_value g (groups row) (socket_id row) (core_id row)
                    (event_id row) (event_value row).
Proof.
  unfold lines_of, has_value. rewrite in_flat_map. split.
  - intros ([gn sockets] & Hg & H). rewrite in_flat_map in H.
    destruct H as ([sn cores] & Hs & H). rewrite in_flat_map in H.
    destruct H as ([cn events] & Hc & H). rewrite in_map_iff in H.
    destruct H as ([en v] & <- & He). simpl in *.
    split; [reflexivity|]. exists sockets, cores, events. auto.
  - intros (Ht & sockets & cores & events & Hg & Hs & Hc & He).
    exists (groups row, sockets). split; [exact Hg|].
    rewrite in_flat_map. exists (socket_id row, cores).
    split; [exact Hs|].
    rewrite in_flat_map. exists (core_id row, events).
    split; [exact Hc|].
    rewrite in_map_iff. exists (event_id row, event_value row).
    split; [|exact He]. simpl. destruct row. simpl in *. now subst.
Qed.

Lemma collect_lines_spec (l : list ReportDict) :
  forall (acc rows : list Row),
    collect_lines l acc = Ok rows ->
    rows = acc ++ flat_map dict_lines l.
Proof.
  induction l as [|d l IH]; intros acc rows H; simpl in H.
  - injection H as <-. simpl. now rewrite app_nil_r.
  - destruct (rd_groups d) as [g|] eqn:Eg; [|discriminate].
    destruct (rd_target d) as [t|] eqn:Et; [|discriminate].
    apply IH in H. subst rows. simpl. unfold dict_lines at 2.
    rewrite Eg, Et. now rewrite <- app_assoc.
Qed.

Lemma create_report (reports_dict : list ReportDict) (grp : HWPCReportsGroup) :
  create_reports_group_from_dicts reports_dict = Ok grp ->
  report grp = flat_map dict_lines reports_dict
  /\ exists d0 rest,
       reports_dict = d0 :: rest
       /\ rd_timestamp d0 = Some (timestamp grp)
       /\ rd_sensor d0 = Some (sensor grp)
       /\ metadata grp = match rd_metadata d0 with
                         | Some m => m
                         | None => []
                         end.
Proof.
  unfold create_reports_group_from_dicts. intro H.
  destruct (negb (is_information_in_reports_dict reports_dict));
    [discriminate|].
  unfold rbind in H.
  destruct (collect_lines reports_dict []) as [rows|] eqn:Ec;
    [|discriminate].
  apply collect_lines_spec in Ec. simpl in Ec.
  destruct reports_dict as [|d0 rest]; [discriminate|].
  destruct (rd_timestamp d0) as [ts|] eqn:Ets; [|discriminate].
  destruct (rd_sensor d0) as [sn|] eqn:Esn; [|discriminate].
  injection H as <-. simpl. split; [exact Ec|].
  exists d0, rest. now rewrite Ets, Esn.
Qed.

(** X14. The report that [create_reports_group_from_dicts] builds has a
    line for every event value of every input dictionary and no other
    line: a line is in the report exactly when some input dictionary has
    the target of the line and holds its value under its group, socket,
    core and event.  The timestamp, the sensor and the metadata (none
    meaning empty) are those of the first dictionary. *)
Theorem create_report_lines :
  forall (reports_dict : list ReportDict) (grp : HWPCReportsGroup),
    create_reports_group_from_dicts reports_dict = Ok grp ->
    (forall row,
        In row (report grp)
        <-> exists d g,
              In d reports_dict
              /\ rd_target d = Some (target row)
              /\ rd_groups d = Some g
              /\ has_value g (groups row) (socket_id row) (core_id row)
                            (event_id row) (event_value row))
    /\ exists d0 rest,
         reports_dict = d0 :: rest
         /\ rd_timestamp d0 = Some (timestamp grp)
         /\ rd_sensor d0 = Some (sensor grp)
         /\ metadata grp = match rd_metadata d0 with
                           | Some m => m
                           | None => []
                           end.
Proof.
  intros reports_dict grp H.
  destruct (create_report reports_dict grp H) as [Hrep Hfirst].
  split; [|exact Hfirst].
  intro row. rewrite Hrep, in_flat_map. split.
  - intros (d & Hd & Hrow). unfold dict_lines in Hrow.
    destruct (rd_target d) as [t|] eqn:Et; [|destruct Hrow].
    destruct (rd_groups d) as [g|] eqn:Eg; [|destruct Hrow].
    apply in_lines_of in Hrow as [Ht Hv].
    exists d, g. rewrite Et, Ht. auto.
  - intros (d & g & Hd & Ht & Hg & Hv).
    exists d. split; [exact Hd|]. unfold dict_lines. rewrite Ht, Hg.
    apply in_lines_of. auto.
Qed.

Lemma create_report_lines_witness :
  In (mkRow "t1" "msr" "0" "1" "e1" 5)
     (report (mkGroup 10 "s1" []
                [mkRow "t1" "msr" "0" "0" "e1" 3;
                 mkRow "t1" "msr" "0" "1" "e1" 5])).
Proof.
  destruct (create_report_lines Examples.two_cores
              (mkGroup 10 "s1" []
                 [mkRow "t1" "msr" "0" "0" "e1" 3;
                  mkRow "t1" "msr" "0" "1" "e1" 5]) eq_refl) as [H _].
  apply H.
  exists (Examples.row "t1" "1" 5), [("msr", [("0", [("1", [("e1", 5%Z)])])])].
  split; [right; now left|]. split; [reflexivity|]. split; [reflexivity|].
  exists [("0", [("1", [("e1", 5%Z)])])], [("1", [("e1", 5%Z)])],
    [("e1", 5%Z)].
  simpl. auto.
Defined.

End HWPCConstruction.

(** ** Serialisation of one dictionary *)

Section DictFacts.
Import HWPC.

Context {V : Type}.

Lemma dict_get_none (d : Dict V) (k : string) :
  ~ In k (keys d) -> dict_get d k = None.
Proof.
  induction d as [|[k0 v0] d IH]; simpl; intro H; [reflexivity|].
  destruct (String.eqb k k0) eqn:E.
  - apply String.eqb_eq in E. subst. exfalso. apply H. now left.
  - apply IH. intro Hin. apply H. now right.
Qed.

Lemma dict_set_new (d : Dict V) (k : string) (v : V) :
  ~ In k (keys d) -> dict_set d k v = d ++ [(k, v)].
Proof.
  induction d as [|[k0 v0] d IH]; simpl; intro H; [reflexivity|].
  destruct (String.eqb k k0) eqn:E.
  - apply String.eqb_eq in E. subst. exfalso. apply H. now left.
  - f_equal. apply IH. intro Hin. apply H. now right.
Qed.

Lemma dict_set_set (d : Dict V) (k : string) (v v' : V) :
  dict_set (dict_set d k v) k v' = dict_set d k v'.
Proof.
  induction d as [|[k0 v0] d IH]; simpl.
  - now rewrite String.eqb_refl.
  - destruct (String.eqb k k0) eqn:E; simpl; rewrite E; [reflexivity|].
    now rewrite IH.
Qed.

Lemma fold_left_ext_in {A B} (f g : A -> B -> A) (l : list B) :
  (forall b, In b l -> forall a, f a b = g a b) ->
  forall a, fold_left f l a = fold_left g l a.
Proof.
  induction l as [|b l IH]; intros H a; simpl; [reflexivity|].
  rewrite (H b (or_introl eq_refl)). apply IH.
  intros b' Hb'. apply H. now right.
Qed.

End DictFacts.

Section NestedDictFacts.
Import HWPC.

Context {V R : Type}.

Lemma dict_upd_upd (d : Dict (Dict V)) (k : string)
    (f f' : Dict V -> Dict V) :
  dict_upd (dict_upd d k f) k f' = dict_upd d k (fun x => f' (f x)).
Proof.
  unfold dict_upd.
  destruct (dict_get d k) as [sub|];
    rewrite dict_get_set, String.eqb_refl; apply dict_set_set.
Qed.

Lemma dict_upd_new (d : Dict (Dict V)) (k : string) (f : Dict V -> Dict V) :
  ~ In k (keys d) -> dict_upd d k f = d ++ [(k, f [])].
Proof.
  intro H. unfold dict_upd. rewrite (dict_get_none d k H).
  now apply dict_set_new.
Qed.

(** Lines that all go to the key [k] amount to one change of [d[k]]. *)
Lemma fold_dict_upd_same_key (k : string) (ap : R -> Dict V -> Dict V)
    (rs : list R) :
  rs <> [] ->
  forall d0 : Dict (Dict V),
    fold_left (fun d r => dict_upd d k (ap r)) rs d0
    = dict_upd d0 k (fun x => fold_left (fun y r => ap r y) rs x).
Proof.
  induction rs as [|r rs IH]; intros Hne d0; [contradiction|].
  destruct rs as [|r' rs'].
  - reflexivity.
  - cbn [fold_left] in *. rewrite IH by discriminate.
    now rewrite dict_upd_upd.
Qed.

(** One level of the nested dictionary is rebuilt from its lines. *)
Lemma fold_dict_upd_level (kf : R -> string) (ap : R -> Dict V -> Dict V)
    (sub : string * Dict V -> list R) (items : Dict (Dict V)) :
  forall acc : Dict (Dict V),
    NoDup (keys items) ->
    (forall k, In k (keys items) -> ~ In k (keys acc)) ->
    (forall kx, In kx items ->
       sub kx <> []
       /\ Forall (fun r => kf r = fst kx) (sub kx)
       /\ fold_left (fun y r => ap r y) (sub kx) [] = snd kx) ->
    fold_left (fun d r => dict_upd d (kf r) (ap r)) (flat_map sub items) acc
    = acc ++ items.
Proof.
  induction items as [|[k x] items IH]; intros acc Hnd Hdis Hsub.
  - simpl. now rewrite app_nil_r.
  - cbn [flat_map]. rewrite fold_left_app.
    destruct (Hsub (k, x) (or_introl eq_refl)) as (Hne & Hk & Hfold).
    cbn [fst snd] in Hk, Hfold.
    rewrite Forall_forall in Hk.
    rewrite (fold_left_ext_in
               (fun d r => dict_upd d (kf r) (ap r))
               (fun d r => dict_upd d k (ap r))
               (sub (k, x)))
      by (intros r Hr a; now rewrite (Hk r Hr)).
    rewrite (fold_dict_upd_same_key k ap (sub (k, x)) Hne).
    rewrite dict_upd_new by (apply Hdis; now left).
    rewrite Hfold.
    inversion Hnd as [|? ? Hnotin Hnd']; subst.
    rewrite IH.
    + now rewrite <- app_assoc.
    + exact Hnd'.
    + intros k' Hk' Hin. unfold keys in Hin. rewrite map_app in Hin.
      apply in_app_or in Hin as [Hin|[Hin|[]]].
      * apply (Hdis k'); [now right | exact Hin].
      * simpl in Hin. subst k'. contradiction.
    + intros kx Hkx. apply Hsub. now right.
Qed.

End NestedDictFacts.

Section HWPCRoundTrip.
Import HWPC.

Lemma add_event_upd (g : Groups) (r : Row) :
  add_event g r = dict_upd g (groups r) (upd_socket r).
Proof. reflexivity. Qed.

Lemma lines_of_sockets_eq (t : string) (g : Groups) :
  lines_of t g = flat_map (fun gs => lines_of_sockets t (fst gs) (snd gs)) g.
Proof. reflexivity. Qed.

Lemma fold_set_event (t g sk c : string) (events : Events) :
  forall acc : Events,
    NoDup (keys events) ->
    (forall k, In k (keys events) -> ~ In k (keys acc)) ->
    fold_left (fun y r => set_event r y) (lines_of_events t g sk c events) acc
    = acc ++ events.
Proof.
  induction events as [|[e v] events IH]; intros acc Hnd Hdis; simpl.
  - now rewrite app_nil_r.
  - unfold set_event at 2. simpl.
    rewrite dict_set_new by (apply Hdis; now left).
    inversion Hnd as [|? ? Hnotin Hnd']; subst.
    unfold lines_of_events in IH. rewrite IH.
    + now rewrite <- app_assoc.
    + exact Hnd'.
    + intros k' Hk' Hin. unfold keys in Hin. rewrite map_app in Hin.
      apply in_app_or in Hin as [Hin|[Hin|[]]].
      * apply (Hdis k'); [now right | exact Hin].
      * simpl in Hin. subst k'. contradiction.
Qed.

Lemma lines_of_events_nonempty (t g sk c : string) (events : Events) :
  events_ok events -> lines_of_events t g sk c events <> [].
Proof. intros [_ H]. destruct events; [contradiction | discriminate]. Qed.

Lemma lines_of_cores_nonempty (t g sk : string) (cores : Cores) :
  cores_ok cores -> lines_of_cores t g sk cores <> [].
Proof.
  intros (_ & Hne & Hall). destruct cores as [|[c events] cores];
    [contradiction|].
  inversion Hall as [|? ? Hev _]; subst. simpl. intro H.
  apply app_eq_nil in H as [H _].
  now apply (lines_of_events_nonempty t g sk c events Hev).
Qed.

Lemma lines_of_sockets_nonempty (t g : string) (sockets : Sockets) :
  sockets_ok sockets -> lines_of_sockets t g sockets <> [].
Proof.
  intros (_ & Hne & Hall). destruct sockets as [|[sk cores] sockets];
    [contradiction|].
  inversion Hall as [|? ? Hc _]; subst. simpl. intro H.
  apply app_eq_nil in H as [H _].
  now apply (lines_of_cores_nonempty t g sk cores Hc).
Qed.

Lemma lines_of_nonempty (t : string) (g : Groups) :
  groups_ok g -> lines_of t g <> [].
Proof.
  intros (_ & Hne & Hall). destruct g as [|[gn sockets] g]; [contradiction|].
  inversion Hall as [|? ? Hs _]; subst. rewrite lines_of_sockets_eq. simpl.
  intro H. apply app_eq_nil in H as [H _].
  now apply (lines_of_sockets_nonempty t gn sockets Hs).
Qed.

Lemma lines_of_target (t : string) (g : Groups) :
  Forall (fun r => target r = t) (lines_of t g).
Proof.
  apply Forall_forall. intros r Hr. now apply in_lines_of in Hr as [Ht _].
Qed.

Lemma rebuild_cores (t g sk : string) (cores : Cores) :
  cores_ok cores ->
  fold_left (fun y r => upd_core r y) (lines_of_cores t g sk cores) [] = cores.
Proof.
  intros (Hnd & _ & Hall).
  apply (fold_dict_upd_level core_id set_event
           (fun ce => lines_of_events t g sk (fst ce) (snd ce)) cores []
           Hnd).
  - intros k _ [].
  - intros [c events] Hin. rewrite Forall_forall in Hall.
    destruct (Hall _ Hin) as [Hnd' Hne']. cbn [fst snd] in *.
    split; [now apply lines_of_events_nonempty|]. split.
    + apply Forall_forall. intros r Hr. unfold lines_of_events in Hr.
      apply in_map_iff in Hr as (ev & <- & _). reflexivity.
    + apply (fold_set_event t g sk c events [] Hnd'). intros k _ [].
Qed.

Lemma rebuild_sockets (t g : string) (sockets : Sockets) :
  sockets_ok sockets ->
  fold_left (fun y r => upd_socket r y) (lines_of_sockets t g sockets) []
  = sockets.
Proof.
  intros (Hnd & _ & Hall).
  apply (fold_dict_upd_level socket_id upd_core
           (fun sc => lines_of_cores t g (fst sc) (snd sc)) sockets []
           Hnd).
  - intros k _ [].
  - intros [sk cores] Hin. rewrite Forall_forall in Hall.
    pose proof (Hall _ Hin) as Hc. cbn [fst snd] in *.
    split; [now apply lines_of_cores_nonempty|]. split.
    + apply Forall_forall. intros r Hr. unfold lines_of_cores in Hr.
      apply in_flat_map in Hr as (ce & _ & Hr).
      unfold lines_of_events in Hr.
      apply in_map_iff in Hr as (ev & <- & _). reflexivity.
    + now apply rebuild_cores.
Qed.

(** Folding [add_event] over the lines of a dictionary gives the
    dictionary back. *)
Lemma rebuild_groups (t : string) (g : Groups) :
  groups_ok g ->
  fold_left add_event (lines_of t g) [] = g.
Proof.
  intros (Hnd & _ & Hall). rewrite lines_of_sockets_eq.
  apply (fold_dict_upd_level groups upd_socket
           (fun gs => lines_of_sockets t (fst gs) (snd gs)) g [] Hnd).
  - intros k _ [].
  - intros [gn sockets] Hin. rewrite Forall_forall in Hall.
    pose proof (Hall _ Hin) as Hs. cbn [fst snd] in *.
    split; [now apply lines_of_sockets_nonempty|]. split.
    + apply Forall_forall. intros r Hr. unfold lines_of_sockets in Hr.
      apply in_flat_map in Hr as (sc & _ & Hr).
      unfold lines_of_cores in Hr.
      apply in_flat_map in Hr as (ce & _ & Hr).
      unfold lines_of_events in Hr.
      apply in_map_iff in Hr as (ev & <- & _). reflexivity.
    + now apply rebuild_sockets.
Qed.

Lemma groupby_from_one_target (t : string) (rows : list Row) :
  Forall (fun r => target r = t) rows ->
  forall (i : nat) (idx : list nat),
    groupby_from String.eqb target rows i [(t, idx)]
    = [(t, idx ++ seq i (List.length rows))].
Proof.
  induction 1 as [|r rows Hr _ IH]; intros i idx; simpl.
  - now rewrite app_nil_r.
  - rewrite Hr, String.eqb_refl, IH. now rewrite <- app_assoc.
Qed.

Lemma groupby_one_target (t : string) (rows : list Row) :
  rows <> [] ->
  Forall (fun r => target r = t) rows ->
  groupby_indices String.eqb target rows = [(t, seq 0 (List.length rows))].
Proof.
  intros Hne Hall. destruct rows as [|r rows]; [contradiction|].
  inversion Hall as [|? ? Hr Hrows]; subst.
  unfold groupby_indices. simpl.
  now rewrite (groupby_from_one_target (target r) rows Hrows).
Qed.

Lemma fill_lines_all (rows : list Row) :
  forall (pre : list Row) (d : MongoDoc),
    fill_lines (pre ++ rows) (seq (List.length pre) (List.length rows)) [d] 0
    = Ok [fold_left (fun d r => doc_add_event r d) rows d].
Proof.
  induction rows as [|r rows IH]; intros pre d; simpl; [reflexivity|].
  rewrite nth_error_app2 by lia. rewrite Nat.sub_diag. simpl.
  replace (pre ++ r :: rows) with ((pre ++ [r]) ++ rows)
    by now rewrite <- app_assoc.
  replace (S (List.length pre)) with (List.length (pre ++ [r]))
    by (rewrite length_app; simpl; lia).
  apply IH.
Qed.

Lemma fold_doc_add_event (rows : list Row) :
  forall (d : MongoDoc) (g0 : Groups),
    fold_left (fun d r => doc_add_event r d) rows (set_doc_groups d g0)
    = set_doc_groups d (fold_left add_event rows g0).
Proof.
  induction rows as [|r rows IH]; intros d g0; simpl; [reflexivity|].
  unfold doc_add_event at 2. cbn [set_doc_groups doc_groups].
  exact (IH d (add_event g0 r)).
Qed.

(** X15. Round trip for one input dictionary.  When the grouped report is
    built from a single dictionary whose nested readings have no empty
    dictionary at any level, [to_mongodb_dict] returns one dictionary: the
    basic information with the target of the input and exactly its nested
    readings, in the same order. *)
Theorem to_mongodb_dict_round_trip :
  forall (d : ReportDict) (grp : HWPCReportsGroup) (basics : MongoDoc)
         (t : string) (g : Groups),
    create_reports_group_from_dicts [d] = Ok grp ->
    rd_target d = Some t ->
    rd_groups d = Some g ->
    groups_ok g ->
    to_mongodb_dict_over grp basics
      (groupby_indices String.eqb target (report grp))
    = Ok [Some (set_doc_groups (set_doc_target basics t) g)]
    /\ to_mongodb_dict grp
       = Ok [Some (mkMongoDoc (timestamp grp) (sensor grp) (metadata grp)
                              (Some t) (Some g))].
Proof.
  intros d grp basics t g Hcreate Ht Hg Hok.
  destruct (create_report [d] grp Hcreate) as [Hrep _].
  simpl in Hrep. rewrite app_nil_r in Hrep. unfold dict_lines in Hrep.
  rewrite Ht, Hg in Hrep.
  assert (Hover : forall b,
             to_mongodb_dict_over grp b
               (groupby_indices String.eqb target (report grp))
             = Ok [Some (set_doc_groups (set_doc_target b t) g)]).
  { intro b. rewrite Hrep.
    rewrite (groupby_one_target t (lines_of t g)
               (lines_of_nonempty t g Hok) (lines_of_target t g)).
    unfold to_mongodb_dict_over. rewrite Hrep. cbn [alloc app List.length].
    cbn [targets_loop store_update].
    rewrite (fill_lines_all (lines_of t g) []).
    cbn [rbind targets_loop app fst snd map deref nth_error].
    rewrite fold_doc_add_event, (rebuild_groups t g Hok).
    reflexivity. }
  split; [apply Hover|].
  unfold to_mongodb_dict. rewrite Hover. reflexivity.
Qed.

Lemma to_mongodb_dict_round_trip_witness :
  to_mongodb_dict (mkGroup 10 "s1" [] [mkRow "t1" "msr" "0" "0" "e1" 3])
  = Ok [Some (mkMongoDoc 10 "s1" [] (Some "t1")
                (Some [("msr", [("0", [("0", [("e1", 3%Z)])])])]))].
Proof.
  refine (proj2 (to_mongodb_dict_round_trip (Examples.row "t1" "0" 3)
                   (mkGroup 10 "s1" [] [mkRow "t1" "msr" "0" "0" "e1" 3])
                   (mkMongoDoc 10 "s1" [] None None) "t1"
                   [("msr", [("0", [("0", [("e1", 3%Z)])])])]
                   eq_refl eq_refl eq_refl _)).
  repeat (split; [repeat constructor; simpl; intuition discriminate|]);
    repeat constructor; simpl; try (intuition discriminate).
Defined.

End HWPCRoundTrip.

(** ** The dictionary shared by all targets *)

Section HWPCAliasing.
Import HWPC.

Lemma last_cons_default {A} (l : list A) :
  forall (x d d' : A), last (x :: l) d = last (x :: l) d'.
Proof.
  induction l as [|a l IH]; intros x d d'; [reflexivity|].
  change (last (a :: l) d = last (a :: l) d'). apply IH.
Qed.

Lemma fill_lines_one_cell (rep : Report) (indices : list nat) :
  forall (d : MongoDoc) (st : Store),
    fill_lines rep indices [d] 0 = Ok st ->
    exists d', st = [d'] /\ doc_target d' = doc_target d.
Proof.
  induction indices as [|i indices IH]; intros d st H; simpl in H.
  - injection H as <-. now exists d.
  - destruct (nth_error rep i) as [row|]; [|discriminate].
    apply IH in H as (d' & -> & Ht). exists d'. split; [reflexivity|].
    rewrite Ht. reflexivity.
Qed.

Lemma targets_loop_one_cell (rep : Report)
    (by_target : list (string * list nat)) :
  forall (d : MongoDoc) (refs : list ref) (st : Store) (refs' : list ref),
    targets_loop rep by_target 0 [d] refs = Ok (st, refs') ->
    exists d',
      st = [d']
      /\ doc_target d'
         = last (map (fun g => Some (fst g)) by_target) (doc_target d).
Proof.
  induction by_target as [|[t idx] rest IH]; intros d refs st refs' H.
  - simpl in H. injection H as <- _. now exists d.
  - cbn [targets_loop store_update] in H. unfold rbind in H.
    destruct (fill_lines rep idx _ 0) as [st1|] eqn:Ef; [|discriminate].
    apply fill_lines_one_cell in Ef as (d1 & -> & Ht1).
    apply IH in H as (d' & -> & Ht'). exists d'. split; [reflexivity|].
    rewrite Ht', Ht1. cbn [set_doc_groups set_doc_target doc_target map fst].
    destruct rest as [|p rest]; [reflexivity|].
    cbn [map].
    etransitivity; [apply (last_cons_default _ _ _ (doc_target d))|].
    reflexivity.
Qed.

(** X16. Whatever the report holds and in whatever order the targets are
    visited, [to_mongodb_dict] returns as many entries as there are
    targets, and all of them are one and the same dictionary, which
    carries the target visited last: the other targets are not in the
    result. *)
Theorem to_mongodb_dict_last_target_only :
  forall (self : HWPCReportsGroup) (basics : MongoDoc)
         (by_target : list (string * list nat))
         (out : list (option MongoDoc)),
    to_mongodb_dict_over self basics by_target = Ok out ->
    exists doc,
      out = repeat (Some doc) (List.length by_target)
      /\ doc_target doc
         = last (map (fun g => Some (fst g)) by_target) (doc_target basics).
Proof.
  intros self basics by_target out H.
  unfold to_mongodb_dict_over in H. cbn [alloc app List.length] in H.
  unfold rbind in H.
  destruct (targets_loop (report self) by_target 0 [basics] [])
    as [[st refs]|] eqn:E; [|discriminate].
  injection H as <-. cbn [fst snd].
  pose proof (targets_loop_refs _ _ _ _ _ _ _ E) as Hrefs.
  apply targets_loop_one_cell in E as (d' & -> & Ht).
  exists d'. split; [|exact Ht].
  rewrite Hrefs. cbn [app]. rewrite map_repeat. reflexivity.
Qed.

Lemma to_mongodb_dict_last_target_only_witness :
  exists doc,
    [Some (Examples.doc "t2" 5); Some (Examples.doc "t2" 5)]
      = repeat (Some doc) 2
    /\ doc_target doc = Some "t2".
Proof.
  exact (to_mongodb_dict_last_target_only
           (mkGroup 10 "s1" []
              [mkRow "t1" "msr" "0" "0" "e1" 3;
               mkRow "t2" "msr" "0" "0" "e1" 5])
           (mkMongoDoc 10 "s1" [] None None)
           [("t1", [0]); ("t2", [1])]
           [Some (Examples.doc "t2" 5); Some (Examples.doc "t2" 5)]
           eq_refl).
Defined.

End HWPCAliasing.

(** ** Lookup after construction *)

Section HWPCLookup.
Import HWPC.

Lemma dict_get_in {V} (d : Dict V) (k : string) (v : V) :
  dict_get d k = Some v -> In (k, v) d.
Proof.
  induction d as [|[k0 v0] d IH]; simpl; [discriminate|].
  destruct (String.eqb k k0) eqn:E.
  - apply String.eqb_eq in E. intro H. injection H as <-. subst. now left.
  - intro H. right. now apply IH.
Qed.

Lemma in_dict_get {V} (d : Dict V) (k : string) (v : V) :
  NoDup (keys d) -> In (k, v) d -> dict_get d k = Some v.
Proof.
  induction d as [|[k0 v0] d IH]; simpl; intros Hnd Hin; [destruct Hin|].
  inversion Hnd as [|? ? Hnotin Hnd']; subst.
  destruct Hin as [Heq|Hin].
  - injection Heq as -> ->. now rewrite String.eqb_refl.
  - destruct (String.eqb k k0) eqn:E.
    + apply String.eqb_eq in E. subst k0. exfalso. apply Hnotin.
      unfold keys. apply in_map_iff. now exists (k, v).
    + now apply IH.
Qed.

Lemma nested_get_has_value (g : Groups) (gn sk c e : string) (v : Z) :
  nested_get g gn sk c e = Some v -> has_value g gn sk c e v.
Proof.
  unfold nested_get, has_value.
  destruct (dict_get g gn) as [sockets|] eqn:E1; [|discriminate].
  destruct (dict_get sockets sk) as [cores|] eqn:E2; [|discriminate].
  destruct (dict_get cores c) as [events|] eqn:E3; [|discriminate].
  intro E4. exists sockets, cores, events.
  repeat split; now apply dict_get_in.
Qed.

Lemma has_value_nested_get (g : Groups) (gn sk c e : string) (v : Z) :
  distinct_keys g ->
  has_value g gn sk c e v -> nested_get g gn sk c e = Some v.
Proof.
  intros [Hnd Hall] (sockets & cores & events & Hg & Hs & Hc & He).
  unfold nested_get.
  rewrite (in_dict_get g gn sockets Hnd Hg).
  rewrite Forall_forall in Hall. destruct (Hall _ Hg) as [Hnd1 Hall1].
  cbn [snd] in Hnd1, Hall1.
  rewrite (in_dict_get sockets sk cores Hnd1 Hs).
  rewrite Forall_forall in Hall1. destruct (Hall1 _ Hs) as [Hnd2 Hall2].
  cbn [snd] in Hnd2, Hall2.
  rewrite (in_dict_get cores c events Hnd2 Hc).
  rewrite Forall_forall in Hall2. pose proof (Hall2 _ Hc) as Hnd3.
  cbn [snd] in Hnd3.
  exact (in_dict_get events e v Hnd3 He).
Qed.

(** X17. Lookup after construction.  On the grouped report built from one
    dictionary, [get_event_value] with the target of the dictionary
    returns what the dictionary holds under the group, socket, core and
    event asked for, [None] when one of these keys is missing, and [None]
    for every other target. *)
Theorem get_event_value_after_create :
  forall (d : ReportDict) (grp : HWPCReportsGroup) (t : string) (g : Groups)
         (target group socket core event : string),
    create_reports_group_from_dicts [d] = Ok grp ->
    rd_target d = Some t ->
    rd_groups d = Some g ->
    distinct_keys g ->
    get_event_value grp target group socket core event
    = Ok (if String.eqb target t
          then nested_get g group socket core event
          else None).
Proof.
  intros d grp t g tq gn sk c e Hcreate Ht Hg Hdk.
  destruct (create_report [d] grp Hcreate) as [Hrep _].
  simpl in Hrep. rewrite app_nil_r in Hrep. unfold dict_lines in Hrep.
  rewrite Ht, Hg in Hrep.
  rewrite get_event_value_find, Hrep. f_equal.
  destruct (find (fun r => key5_eqb (tq, gn, sk, c, e) (key5 r))
                 (lines_of t g)) as [r|] eqn:Ef.
  - apply find_some in Ef as [Hin Hk].
    apply key5_eqb_eq in Hk. unfold key5 in Hk.
    injection Hk as Htq Hgn Hsk Hc He.
    apply in_lines_of in Hin as [Htr Hv].
    rewrite <- Hgn, <- Hsk, <- Hc, <- He in Hv.
    assert (Heq : String.eqb tq t = true)
      by (apply String.eqb_eq; congruence).
    rewrite Heq. cbn [option_map]. symmetry.
    now apply has_value_nested_get.
  - cbn [option_map].
    destruct (String.eqb tq t) eqn:Heq; [|reflexivity].
    apply String.eqb_eq in Heq. subst tq.
    destruct (nested_get g gn sk c e) as [v|] eqn:En; [|reflexivity].
    apply nested_get_has_value in En.
    assert (Hin : In (mkRow t gn sk c e v) (lines_of t g))
      by (apply in_lines_of; split; [reflexivity | exact En]).
    pose proof (find_none _ _ Ef _ Hin) as Hk. cbn beta in Hk.
    assert (Hk' : key5_eqb (t, gn, sk, c, e)
                           (key5 (mkRow t gn sk c e v)) = true)
      by (apply key5_eqb_eq; reflexivity).
    congruence.
Qed.

Lemma get_event_value_after_create_witness :
  get_event_value (mkGroup 10 "s1" [] [mkRow "t1" "msr" "0" "0" "e1" 3])
                  "t1" "msr" "0" "0" "e1"
  = Ok (Some 3%Z).
Proof.
  refine (get_event_value_after_create (Examples.row "t1" "0" 3)
            (mkGroup 10 "s1" [] [mkRow "t1" "msr" "0" "0" "e1" 3])
            "t1" [("msr", [("0", [("0", [("e1", 3%Z)])])])]
            "t1" "msr" "0" "0" "e1" eq_refl eq_refl eq_refl _).
  repeat constructor; simpl; intuition discriminate.
Defined.

End HWPCLookup.

(** * Further properties of the Mongo report source *)

Section MongoSourceFurtherProperties.
Import HWPC MongoSource.

Variable G : Type.
Variable create : list ReportDict -> Result G.

Lemma subscribe_loop_same_timestamp (ts : Z) (docs : list ReportDict) :
  Forall (has_timestamp ts) docs ->
  forall (buf : list ReportDict) (out : list G),
    subscribe_loop create docs (mkRun (Some (mkCurrent ts buf)) out)
    = (mkRun (Some (mkCurrent ts (buf ++ docs))) out, Ok tt).
Proof.
  induction 1 as [|d docs Hd _ IH]; intros buf out; simpl.
  - now rewrite app_nil_r.
  - unfold has_timestamp in Hd. rewrite Hd, Z.eqb_refl, IH.
    now rewrite <- app_assoc.
Qed.

(** X18. On a collection all of whose documents carry the same timestamp,
    [subscribe] in batch mode calls [on_next] not once: it returns with
    the whole collection in the buffer of the source, and the constructor
    of grouped reports is never called. *)
Theorem subscribe_single_timestamp_emits_nothing :
  forall (ts : Z) (d : ReportDict) (docs : list ReportDict),
    Forall (has_timestamp ts) (d :: docs) ->
    subscribe create (d :: docs)
    = (mkRun (Some (mkCurrent ts (d :: docs))) [], Ok tt).
Proof.
  intros ts d docs H. inversion H as [|? ? Hd Hdocs]; subst.
  unfold subscribe. simpl. unfold has_timestamp in Hd. rewrite Hd.
  unfold initialize_current_group_dicts.
  exact (subscribe_loop_same_timestamp ts docs Hdocs [d] []).
Qed.

Lemma subscribe_loop_missing_timestamp (pre : list ReportDict)
    (bad : ReportDict) (post : list ReportDict) :
  rd_timestamp bad = None ->
  forall (s : Run G),
    subscribe_loop create (pre ++ bad :: post) s
      = subscribe_loop create (pre ++ [bad]) s
    /\ snd (subscribe_loop create (pre ++ bad :: post) s) <> Ok tt.
Proof.
  intro Hbad. induction pre as [|d pre IH]; intro s; simpl.
  - rewrite Hbad. split; [reflexivity | discriminate].
  - destruct (rd_timestamp d) as [ts|]; [|split; [reflexivity|discriminate]].
    destruct (current_group_dicts s) as [cur|]; [|apply IH].
    destruct (Z.eqb (cg_timestamp cur) ts); [apply IH|].
    destruct (create (cg_dicts cur)) as [g|e];
      [apply IH | split; [reflexivity | discriminate]].
Qed.

(** X19. When a document of the collection has no timestamp, [subscribe]
    in batch mode does not return normally: it raises, at that document at
    the latest, and the documents that follow it are never read, so that
    the outcome is the same whatever they are. *)
Theorem subscribe_missing_timestamp_raises :
  forall (pre : list ReportDict) (bad : ReportDict)
         (post : list ReportDict),
    rd_timestamp bad = None ->
    snd (subscribe create (pre ++ bad :: post)) <> Ok tt
    /\ subscribe create (pre ++ bad :: post)
       = subscribe create (pre ++ [bad]).
Proof.
  intros pre bad post Hbad. unfold subscribe.
  destruct (subscribe_loop_missing_timestamp pre bad post Hbad
              (mkRun None [])) as [Heq Hne].
  split; [exact Hne | exact Heq].
Qed.

End MongoSourceFurtherProperties.

Lemma subscribe_single_timestamp_emits_nothing_witness :
  MongoSource.subscribe HWPC.create_reports_group_from_dicts
    Examples.two_cores
  = (MongoSource.mkRun
       (Some (MongoSource.mkCurrent 10 Examples.two_cores)) [], Ok tt).
Proof.
  apply (subscribe_single_timestamp_emits_nothing HWPC.HWPCReportsGroup
           HWPC.create_reports_group_from_dicts 10).
  repeat constructor.
Defined.

Lemma subscribe_missing_timestamp_raises_witness :
  snd (MongoSource.subscribe HWPC.create_reports_group_from_dicts
         ([Examples.row "t1" "0" 3]
          ++ HWPC.mkReportDict None (Some "s1") (Some "t1") (Some []) None
          :: [Examples.row "t1" "1" 5]))
  <> Ok tt.
Proof.
  exact (proj1 (subscribe_missing_timestamp_raises HWPC.HWPCReportsGroup
                  HWPC.create_reports_group_from_dicts
                  [Examples.row "t1" "0" 3]
                  (HWPC.mkReportDict None (Some "s1") (Some "t1")
                                     (Some []) None)
                  [Examples.row "t1" "1" 5] eq_refl)).
Defined.
